(** * Cuckoo filter (dakv/cuckoo): a shallow embedding of src/bucket.rs
    and src/cuckoo_filter.rs.

    Conventions of the embedding:
    - a [u8] or [u64] value is a [Z]; a [usize] count or index is a [nat];
    - [[u8; BUCKET_SIZE]] is a [list Z] of length [BUCKET_SIZE];
    - [Box<[Bucket]>] is a [list Bucket], read with [!!] and written with
      [<[i := b]>]; a Rust index out of range is a panic;
    - every operation that can panic returns an [option]: [None] is a panic;
    - the random choices of [rand_index] and [reinsert] are arguments: a
      [bool] for the coin of [rand_index] and a function [rng] giving, for the
      k-th iteration of the eviction loop, the slot drawn by
      [rng.gen_range(0, BUCKET_SIZE)];
    - [gen_size] computes in binary64 floating point, as the source does. *)

From Stdlib Require Import ZArith Lia.
From Corelib Require Import SpecFloat.
From stdpp Require Import base list.

(** ** Bucket (src/bucket.rs) *)

Definition BUCKET_SIZE : nat := 4.

Abbreviation Bucket := (list Z) (only parsing).

(** [Bucket::new]: all slots zero. *)
Definition bucket_new : Bucket := repeat 0%Z BUCKET_SIZE.

(** [Bucket::insert]: store [finger] in the first zero slot. *)
Fixpoint bucket_insert (data : Bucket) (finger : Z) : bool * Bucket :=
  match data with
  | [] => (false, [])
  | fp :: rest =>
      if Z.eqb fp 0 then (true, finger :: rest)
      else let '(ok, rest') := bucket_insert rest finger in (ok, fp :: rest')
  end.

(** [Bucket::delete]: clear the first slot equal to [finger]. *)
Fixpoint bucket_delete (data : Bucket) (finger : Z) : bool * Bucket :=
  match data with
  | [] => (false, [])
  | fp :: rest =>
      if Z.eqb fp finger then (true, 0%Z :: rest)
      else let '(ok, rest') := bucket_delete rest finger in (ok, fp :: rest')
  end.

(** [Bucket::get_fingerprint_index]: position of the first slot equal to
    [finger]. *)
Fixpoint get_fingerprint_index (data : Bucket) (finger : Z) : option nat :=
  match data with
  | [] => None
  | fp :: rest =>
      if Z.eqb fp finger then Some 0%nat
      else option_map S (get_fingerprint_index rest finger)
  end.

Definition is_some {A} (o : option A) : bool :=
  match o with Some _ => true | None => false end.

(** ** Constants and sizing (src/cuckoo_filter.rs) *)

Definition MAX_CUCKOO_COUNT : nat := 500.

Definition DE_BRUIJN64_TAB : list nat :=
  [0; 1; 56; 2; 57; 49; 28; 3; 61; 58; 42; 50; 38; 29; 17; 4; 62; 47; 59; 36; 45; 43; 51; 22; 53;
   39; 33; 30; 24; 18; 12; 5; 63; 55; 48; 27; 60; 41; 37; 16; 46; 35; 44; 21; 52; 32; 23; 11; 54;
   26; 40; 15; 34; 20; 31; 10; 25; 14; 19; 9; 13; 8; 7; 6]%nat.

Definition DE_BRUIJN64 : Z := 0x03f79d71b4ca8b09%Z.

Definition two64 : Z := (2 ^ 64)%Z.

(** [trailing_zeros] as a release build runs it: [c & -c] isolates the
    lowest set bit (the negation [(c as i64 * (-1)) as u64] is [2^64 - c]
    modulo [2^64]); the product with the De Bruijn constant wraps modulo
    [2^64], and its top six bits index the table. A debug build checks the
    multiplication [c as i64 * (-1)] for overflow, which happens only at
    [c = 2^63]; that version is [trailing_zeros_debug] below. Its only
    caller, [with_capacity], calls it after collecting [capacity] buckets,
    and at [capacity = 2^63] that allocation fails first, so the two
    versions agree on every call [with_capacity] reaches. *)
Definition trailing_zeros (c : nat) : nat :=
  if Nat.eqb c 0 then 64%nat
  else
    let cz := Z.of_nat c in
    let cc := (((Z.land cz ((- cz) mod two64)) * DE_BRUIJN64) mod two64)%Z in
    default 0%nat (DE_BRUIJN64_TAB !! Z.to_nat (Z.shiftr cc (64 - 6)%Z)).

(** [c as i64]: the 64 bits of a [u64] read as a two's complement [i64]. *)
Definition i64_of_u64 (x : Z) : Z := if Z.ltb x (2 ^ 63) then x else (x - two64)%Z.

(** [x * (-1)] on [i64] in a debug build: a product outside the [i64]
    range panics ("attempt to multiply with overflow"). *)
Definition i64_neg_checked (x : Z) : option Z :=
  let p := (x * (-1))%Z in
  if (Z.leb (- 2 ^ 63) p && Z.ltb p (2 ^ 63))%bool then Some p else None.

(** [trailing_zeros] as a debug build runs it: [None] is the overflow
    panic of [c as i64 * (-1)]; then [as u64] takes the result modulo
    [2^64], and the rest is as in [trailing_zeros]. *)
Definition trailing_zeros_debug (c : nat) : option nat :=
  if Nat.eqb c 0 then Some 64%nat
  else
    let cz := Z.of_nat c in
    match i64_neg_checked (i64_of_u64 cz) with
    | None => None
    | Some neg =>
        let cc := (((Z.land cz (neg mod two64)) * DE_BRUIJN64) mod two64)%Z in
        Some (default 0%nat (DE_BRUIJN64_TAB !! Z.to_nat (Z.shiftr cc (64 - 6)%Z)))
    end.

(** Modelled from the spec: [upper_power2] of the module [util], which is
    not among the sources: "next power of two >= x". *)
Definition upper_power2 (x : Z) : Z := (2 ^ Z.log2_up x)%Z.

(** binary64 arithmetic: [n as f64] rounds to nearest, ties to even. *)
Definition f64_of_u64 (n : Z) : spec_float := binary_normalize 53%Z 1024%Z n 0%Z false.

Definition f64_div : spec_float -> spec_float -> spec_float := SFdiv 53%Z 1024%Z.

Definition f64_gt (x y : spec_float) : bool := SFltb y x.

(** The literal [0.96]: the binary64 number nearest to 96/100, which is the
    correctly rounded quotient of 96 by 100. *)
Definition f64_0_96 : spec_float := f64_div (f64_of_u64 96%Z) (f64_of_u64 100%Z).

Definition gen_size (max_num_keys : Z) : Z :=
  let num_buckets := upper_power2 (Z.max 1 (max_num_keys / Z.of_nat BUCKET_SIZE))%Z in
  let frac := f64_div (f64_div (f64_of_u64 max_num_keys) (f64_of_u64 num_buckets))
                      (f64_of_u64 (Z.of_nat BUCKET_SIZE)) in
  if f64_gt frac f64_0_96 then Z.shiftl num_buckets 1%Z else num_buckets.

(** ** The filter *)

Inductive CuckooError := NotFound | NotEnoughSpace | NotSupported.

Inductive CResult := Ok | Err (e : CuckooError).

Record CuckooFilter := mkFilter {
  buckets : list Bucket;
  size : nat;
  pow : nat
}.

(** [CuckooFilter::with_capacity]: [capacity] zeroed buckets. *)
Definition with_capacity (capacity : nat) : CuckooFilter :=
  {| buckets := repeat bucket_new capacity; size := 0; pow := trailing_zeros capacity |}.

Definition new (max_num_keys : Z) : CuckooFilter :=
  with_capacity (Z.to_nat (gen_size max_num_keys)).

Definition default_filter : CuckooFilter := new (2 ^ 24)%Z.

(** The transient fingerprint record of the module [util]. *)
Record Fingerprint := mkFingerprint { fp : Z; i1 : Z; i2 : Z }.

(** [rand_index]: the fair coin [random()]. *)
Definition rand_index (coin : bool) (i1 i2 : Z) : Z := if coin then i1 else i2.

(** The hash functions of the module [util] (not among the sources):
    the 64-bit hash of a key, the natural fingerprint byte of a key, the
    hash of a fingerprint, and the non-zero replacement of a zero byte. *)
Class Hasher := {
  hash : list Z -> Z;
  fp_byte : list Z -> Z;
  hash_fp : Z -> Z;
  fp_zero_replacement : Z
}.

(** A sample hasher, used only to run the model on concrete keys: the
    first byte of a key is its fingerprint byte, the second byte its hash,
    and a fingerprint hashes to itself. *)
Definition sample_hasher : Hasher := {|
  hash := fun key => default 0%Z (key !! 1%nat);
  fp_byte := fun key => default 0%Z (key !! 0%nat);
  hash_fp := fun f => f;
  fp_zero_replacement := 255%Z
|}.

Section Filter.
Context {H : Hasher}.

(** Modelled from the spec: the fingerprint of [util]: "a single byte,
    non-zero (if the natural hash byte is 0, substitute a fixed non-zero
    replacement value)". *)
Definition fingerprint (key : list Z) : Z :=
  let b := fp_byte key in if Z.eqb b 0 then fp_zero_replacement else b.

(** Modelled from the spec: [get_alt_index] of [util]:
    "(i XOR hash(fp)) & (N-1)" with [N = 2^pow]. *)
Definition get_alt_index (fp : Z) (i : Z) (pow : nat) : Z :=
  Z.land (Z.lxor i (hash_fp fp)) (Z.ones (Z.of_nat pow)).

(** Modelled from the spec: [get_indices_and_fingerprint] of [util]:
    "i1: hash(key) & (N-1)", "i2: (i1 XOR hash(fp)) & (N-1)". *)
Definition get_indices_and_fingerprint (item : list Z) (pow : nat) : Fingerprint :=
  let f := fingerprint item in
  let j1 := Z.land (hash item) (Z.ones (Z.of_nat pow)) in
  {| fp := f; i1 := j1; i2 := get_alt_index f j1 pow |}.

(** [CuckooFilter::insert]: [i as usize % self.buckets.len()] panics on an
    empty bucket array. *)
Definition insert (cf : CuckooFilter) (f : Z) (i : Z) : option (bool * CuckooFilter) :=
  let len := length (buckets cf) in
  if Nat.eqb len 0 then None
  else
    let index := Nat.modulo (Z.to_nat i) len in
    match buckets cf !! index with
    | None => None
    | Some b =>
        let '(ok, b') := bucket_insert b f in
        if ok then Some (true, {| buckets := <[index := b']> (buckets cf);
                                  size := S (size cf); pow := pow cf |})
        else Some (false, cf)
    end.

(** [mem::swap(&mut fp, &mut self.buckets[i as usize][j])]: returns the
    old slot value and the filter with [f] in the slot. *)
Definition swap_slot (cf : CuckooFilter) (i : Z) (j : nat) (f : Z) : option (Z * CuckooFilter) :=
  match buckets cf !! Z.to_nat i with
  | None => None
  | Some b =>
      match b !! j with
      | None => None
      | Some old =>
          Some (old, {| buckets := <[Z.to_nat i := <[j := f]> b]> (buckets cf);
                        size := size cf; pow := pow cf |})
      end
  end.

(** The loop of [CuckooFilter::reinsert]; [k] is the iteration number and
    [fuel] the number of iterations left. *)
Fixpoint reinsert_loop (fuel k : nat) (rng : nat -> nat) (f : Z) (i : Z)
    (cf : CuckooFilter) : option (CResult * CuckooFilter) :=
  match fuel with
  | O => Some (Err NotEnoughSpace, cf)
  | S fuel' =>
      match swap_slot cf i (rng k) f with
      | None => None
      | Some (f', cf1) =>
          let i' := get_alt_index f' i (pow cf1) in
          match insert cf1 f' i' with
          | None => None
          | Some (true, cf2) => Some (Ok, cf2)
          | Some (false, cf2) => reinsert_loop fuel' (S k) rng f' i' cf2
          end
      end
  end.

Definition reinsert (rng : nat -> nat) (f : Z) (i : Z) (cf : CuckooFilter)
    : option (CResult * CuckooFilter) :=
  reinsert_loop MAX_CUCKOO_COUNT 0 rng f i cf.

(** [CuckooFilter::add]. *)
Definition add (cf : CuckooFilter) (item : list Z) (coin : bool) (rng : nat -> nat)
    : option (CResult * CuckooFilter) :=
  let finger := get_indices_and_fingerprint item (pow cf) in
  match insert cf (fp finger) (i1 finger) with
  | None => None
  | Some (true, cf1) => Some (Ok, cf1)
  | Some (false, cf1) =>
      match insert cf1 (fp finger) (i2 finger) with
      | None => None
      | Some (true, cf2) => Some (Ok, cf2)
      | Some (false, cf2) =>
          reinsert rng (fp finger) (rand_index coin (i1 finger) (i2 finger)) cf2
      end
  end.

(** [CuckooFilter::contains]: note that both [b1] and [b2] are read at
    [finger.i1], as in the source. *)
Definition contains (cf : CuckooFilter) (data : list Z) : option bool :=
  let finger := get_indices_and_fingerprint data (pow cf) in
  match buckets cf !! Z.to_nat (i1 finger) with
  | None => None
  | Some b1 =>
      match buckets cf !! Z.to_nat (i1 finger) with
      | None => None
      | Some b2 =>
          Some (is_some (get_fingerprint_index b1 (fp finger))
                || is_some (get_fingerprint_index b2 (fp finger)))
      end
  end.

(** [CuckooFilter::remove]: [self.size -= 1] panics on underflow (debug
    build). *)
Definition remove (cf : CuckooFilter) (f : Z) (i : Z) : option (bool * CuckooFilter) :=
  match buckets cf !! Z.to_nat i with
  | None => None
  | Some b =>
      let '(ok, b') := bucket_delete b f in
      if ok then
        match size cf with
        | O => None
        | S n => Some (true, {| buckets := <[Z.to_nat i := b']> (buckets cf);
                                size := n; pow := pow cf |})
        end
      else Some (false, cf)
  end.

(** [CuckooFilter::delete]. *)
Definition delete (cf : CuckooFilter) (data : list Z) : option (bool * CuckooFilter) :=
  let finger := get_indices_and_fingerprint data (pow cf) in
  match remove cf (fp finger) (i1 finger) with
  | None => None
  | Some (true, cf1) => Some (true, cf1)
  | Some (false, cf1) => remove cf1 (fp finger) (i2 finger)
  end.

(** ** Observations used by the statements *)

(** Number of non-zero (occupied) slots of a list of slots. *)
Definition occ (l : list Z) : nat := length (List.filter (fun x => negb (Z.eqb x 0)) l).

(** All slots of the filter, bucket after bucket. *)
Definition slots (cf : CuckooFilter) : list Z := concat (buckets cf).

Definition occupied (cf : CuckooFilter) : nat := occ (slots cf).

(** [self.buckets[n][s]], when both indices are in range. *)
Definition slot_at (cf : CuckooFilter) (n s : nat) : option Z :=
  match buckets cf !! n with Some b => b !! s | None => None end.

(** The shape the code keeps: every bucket has [BUCKET_SIZE] slots, and the
    indices masked to [pow] bits address existing buckets. *)
Definition wf (cf : CuckooFilter) : Prop :=
  Forall (fun b => length b = BUCKET_SIZE) (buckets cf) /\
  (buckets cf = [] \/ (2 ^ Z.of_nat (pow cf) <= Z.of_nat (length (buckets cf)))%Z).

(** Filter states reachable through the public operations; [contains]
    takes [&self] and yields no new state. *)
Inductive reachable : CuckooFilter -> Prop :=
  | reach_with_capacity (n : nat) :
      (Z.of_nat n < two64)%Z -> reachable (with_capacity n)
  | reach_add cf item coin rng r cf' :
      reachable cf -> add cf item coin rng = Some (r, cf') -> reachable cf'
  | reach_delete cf data ok cf' :
      reachable cf -> delete cf data = Some (ok, cf') -> reachable cf'.

End Filter.

Definition sample_add := @add sample_hasher.
Definition sample_contains := @contains sample_hasher.
Definition sample_delete := @delete sample_hasher.

(** Runs [add] on each key in turn, with the coin [true] and slot 0 drawn
    in the eviction loop. *)
Definition add_all (cf : CuckooFilter) (keys : list (list Z)) : option CuckooFilter :=
  fold_left (fun acc key =>
    match acc with
    | None => None
    | Some c => match sample_add c key true (fun _ => 0%nat) with
                | Some (_, c') => Some c'
                | None => None
                end
    end) keys (Some cf).

(** Two buckets ([pow = 1]): bucket 0 filled by the keys with fingerprints
    1, 3, 5 and 7, whose primary index is 0. *)
Definition bucket0_full : option CuckooFilter :=
  add_all (with_capacity 2) [[1; 0]; [3; 0]; [5; 0]; [7; 0]]%Z.

(** One bucket ([pow = 0]) filled by the fingerprints 1, 2, 3 and 4. *)
Definition single_bucket_full : option CuckooFilter :=
  add_all (with_capacity 1) [[1; 0]; [2; 0]; [3; 0]; [4; 0]]%Z.

(** ** Further code of the repository *)

(** [Bucket::reset]: every slot set to zero. *)
Definition bucket_reset (data : Bucket) : Bucket := map (fun _ => 0%Z) data.

Section Programs.
Context {H : Hasher}.

(** A call of a public operation of [CuckooFilter] in a client program. *)
Inductive Op :=
  | OpAdd (item : list Z) (coin : bool) (rng : nat -> nat)
  | OpDelete (data : list Z)
  | OpContains (data : list Z).

(** The calls of a client program in sequence, their results ignored (as
    [let _ = cf.add(..)] does); [None] when one of them panics. *)
Fixpoint run (cf : CuckooFilter) (ops : list Op) : option CuckooFilter :=
  match ops with
  | [] => Some cf
  | OpAdd item coin rng :: ops' =>
      match add cf item coin rng with
      | Some (_, cf') => run cf' ops'
      | None => None
      end
  | OpDelete data :: ops' =>
      match delete cf data with
      | Some (_, cf') => run cf' ops'
      | None => None
      end
  | OpContains data :: ops' =>
      match contains cf data with
      | Some _ => run cf ops'
      | None => None
      end
  end.

(** The keys passed to [add] by a client program. *)
Definition added_keys (ops : list Op) : list (list Z) :=
  flat_map (fun op => match op with OpAdd item _ _ => [item] | _ => [] end) ops.

(** The fingerprint [v] is that of one of [keys], and [i] is one of the
    two candidate buckets of that key. *)
Definition placed_at (keys : list (list Z)) (p : nat) (i : Z) (v : Z) : Prop :=
  exists k, In k keys /\ v = fingerprint k /\
    (i = i1 (get_indices_and_fingerprint k p) \/ i = i2 (get_indices_and_fingerprint k p)).

(** Every non-zero slot of the filter holds the fingerprint of one of
    [keys], in one of that key's candidate buckets. *)
Definition placed (keys : list (list Z)) (cf : CuckooFilter) : Prop :=
  forall n s v, slot_at cf n s = Some v -> v <> 0%Z -> placed_at keys (pow cf) (Z.of_nat n) v.

(** The key [b"test"] of the example and of the unit tests. *)
Definition test_key : list Z := [116; 101; 115; 116]%Z.

(** [main] of example/main.rs (and the test [test_delete]) after its first
    line, on the filter [cf]: a failed [assert!] is a panic. *)
Definition example_steps (cf : CuckooFilter) (coin : bool) (rng : nat -> nat) : option unit :=
  match add cf test_key coin rng with
  | None => None
  | Some (_, cf1) =>
      if negb (Nat.eqb (size cf1) 1) then None else
      match contains cf1 test_key with
      | Some true =>
          match delete cf1 test_key with
          | Some (true, cf2) =>
              if negb (Nat.eqb (size cf2) 0) then None else
              match contains cf2 test_key with
              | Some false => Some tt
              | _ => None
              end
          | _ => None
          end
      | _ => None
      end
  end.

(** [main] of example/main.rs: [CuckooFilter::default()], then the steps. *)
Definition example_main (coin : bool) (rng : nat -> nat) : option unit :=
  example_steps default_filter coin rng.

Definition is_ok (r : CResult) : bool := match r with Ok => true | Err _ => false end.

(** [count] calls [cf.add(b"test")] of the test [test_add], the [k]-th one
    drawing [coins k] and [rngs k], each followed by
    [assert!(result.is_ok())] ([expect_ok = true]) or
    [assert!(!result.is_ok())] ([expect_ok = false]). *)
Fixpoint add_test_key (count k : nat) (expect_ok : bool) (coins : nat -> bool)
    (rngs : nat -> nat -> nat) (cf : CuckooFilter) : option CuckooFilter :=
  match count with
  | O => Some cf
  | S count' =>
      match add cf test_key (coins k) (rngs k) with
      | None => None
      | Some (r, cf') =>
          if Bool.eqb (is_ok r) expect_ok
          then add_test_key count' (S k) expect_ok coins rngs cf'
          else None
      end
  end.

(** The unit test [test_add]. *)
Definition test_add (coins : nat -> bool) (rngs : nat -> nat -> nat) : option unit :=
  let cf := new 100 in
  match add_test_key 8 0 true coins rngs cf with
  | None => None
  | Some cf1 =>
      if negb (Nat.eqb (size cf1) 8) then None else
      match add_test_key 8 8 false coins rngs cf1 with
      | None => None
      | Some cf2 => if Nat.eqb (size cf2) 8 then Some tt else None
      end
  end.

End Programs.

(** * Proofs *)

(** ** [trailing_zeros] *)

Section TrailingZeros.
Local Open Scope Z_scope.

Lemma odd_decomposition (c : Z) :
  (0 < c)%Z -> exists k q, (0 <= k)%Z /\ (0 <= q)%Z /\ c = (2 ^ k * (2 * q + 1))%Z.
Proof.
  intros Hc.
  assert (Hind : forall m : nat, forall c, (0 < c <= Z.of_nat m)%Z ->
            exists k q, (0 <= k)%Z /\ (0 <= q)%Z /\ c = (2 ^ k * (2 * q + 1))%Z).
  { induction m as [|m IH]; intros c' Hc'; [lia|].
    destruct (Z.Even_or_Odd c') as [[h Hh]|[h Hh]].
    - destruct (IH h) as (k & q & Hk & Hq & Hkq); [lia|].
      exists (Z.succ k), q. split; [lia|]. split; [lia|].
      rewrite Z.pow_succ_r by lia. lia.
    - exists 0%Z, h. split; [lia|]. split; [lia|]. rewrite Z.pow_0_r. lia. }
  apply (Hind (Z.to_nat c)). lia.
Qed.

Lemma land_odd_opp (q : Z) : (0 <= q)%Z -> Z.land (2 * q + 1) (- (2 * q + 1)) = 1%Z.
Proof.
  intros Hq.
  replace (- (2 * q + 1))%Z with (2 * Z.lnot q + 1)%Z by (rewrite Z.lnot_eq_pred_opp; lia).
  apply Z.bits_inj'. intros n Hn. rewrite Z.land_spec.
  destruct (Z.eq_dec n 0) as [->|Hn0].
  - rewrite !Z.testbit_odd_0. reflexivity.
  - replace n with (Z.succ (n - 1)) by lia.
    rewrite !Z.testbit_odd_succ by lia. rewrite Z.lnot_spec by lia.
    rewrite (Z.bits_above_log2 1) by (simpl; lia).
    destruct (Z.testbit q (n - 1)); reflexivity.
Qed.

Lemma land_isolates_lowest_bit (k q : Z) :
  (0 <= k)%Z -> (0 <= q)%Z ->
  Z.land (2 ^ k * (2 * q + 1)) (- (2 ^ k * (2 * q + 1))) = (2 ^ k)%Z.
Proof.
  intros Hk Hq.
  replace (- (2 ^ k * (2 * q + 1)))%Z with ((- (2 * q + 1)) * 2 ^ k)%Z by lia.
  rewrite (Z.mul_comm (2 ^ k)).
  rewrite <- !Z.shiftl_mul_pow2 by lia.
  rewrite <- Z.shiftl_land, land_odd_opp by lia.
  apply Z.shiftl_1_l.
Qed.

Lemma de_bruijn_table (kn : nat) :
  (kn < 64)%nat ->
  DE_BRUIJN64_TAB !! Z.to_nat (Z.shiftr (((2 ^ Z.of_nat kn) * DE_BRUIJN64) mod two64) (64 - 6))
  = Some kn.
Proof.
  intros Hk.
  do 64 (destruct kn as [|kn]; [reflexivity|]). lia.
Qed.

(** For a non-zero [usize], [trailing_zeros c] is the exponent of the
    largest power of two dividing [c]. *)
Lemma trailing_zeros_spec (c : nat) :
  (0 < c)%nat -> (Z.of_nat c < two64)%Z ->
  exists q, (0 <= q)%Z /\ Z.of_nat c = (2 ^ Z.of_nat (trailing_zeros c) * (2 * q + 1))%Z.
Proof.
  intros Hc Hlt.
  destruct (odd_decomposition (Z.of_nat c)) as (k & q & Hk & Hq & Hkq); [lia|].
  assert (Hk64 : (k < 64)%Z).
  { destruct (Z.lt_ge_cases k 64) as [?|Hge]; [assumption|].
    assert ((2 ^ 64 <= 2 ^ k)%Z) by (apply Z.pow_le_mono_r; lia).
    unfold two64 in Hlt. nia. }
  assert (Hneg : Z.land (Z.of_nat c) ((- Z.of_nat c) mod two64) = (2 ^ k)%Z).
  { unfold two64.
    rewrite <- Z.land_ones by lia.
    rewrite Z.land_assoc, (Z.land_comm (Z.of_nat c)), <- Z.land_assoc.
    rewrite (Z.land_ones (Z.of_nat c)) by lia.
    rewrite Z.mod_small by (unfold two64 in Hlt; lia).
    rewrite Z.land_comm, Hkq. apply land_isolates_lowest_bit; assumption. }
  exists q. split; [assumption|].
  unfold trailing_zeros.
  destruct (Nat.eqb_spec c 0) as [|_]; [lia|].
  rewrite Hneg.
  replace k with (Z.of_nat (Z.to_nat k)) by lia.
  rewrite de_bruijn_table by lia.
  simpl. rewrite Z2Nat.id by lia. exact Hkq.
Qed.

End TrailingZeros.

(** ** Buckets and slot counts *)

Section Buckets.

Lemma occ_app (l1 l2 : list Z) : occ (l1 ++ l2) = occ l1 + occ l2.
Proof.
  unfold occ. induction l1 as [|x l1 IH]; simpl; [reflexivity|].
  destruct (Z.eqb x 0); simpl; lia.
Qed.

Lemma occ_cons (x : Z) (l : list Z) : occ (x :: l) = (if Z.eqb x 0 then 0 else 1) + occ l.
Proof. unfold occ. simpl. destruct (Z.eqb x 0); reflexivity. Qed.

Lemma occ_perm (l1 l2 : list Z) : Permutation l1 l2 -> occ l1 = occ l2.
Proof.
  induction 1 as [|x l1 l2 _ IH|x y l|l1 l2 l3 _ IH1 _ IH2];
    rewrite ?occ_cons; lia.
Qed.

(** [Bucket::insert] either fills the first empty slot or, when no slot is
    empty, changes nothing. *)
Lemma bucket_insert_spec (b : list Z) (f : Z) :
  (exists pre post, b = pre ++ 0%Z :: post /\ bucket_insert b f = (true, pre ++ f :: post)) \/
  (Forall (fun x => x <> 0%Z) b /\ bucket_insert b f = (false, b)).
Proof.
  induction b as [|x b IH]; simpl.
  - right. split; [constructor|reflexivity].
  - destruct (Z.eqb_spec x 0) as [->|Hx].
    + left. exists [], b. split; reflexivity.
    + destruct IH as [(pre & post & -> & ->)|[Hall ->]].
      * left. exists (x :: pre), post. split; reflexivity.
      * right. split; [constructor; assumption|reflexivity].
Qed.

(** [Bucket::delete] either clears the first slot holding [f] or, when no
    slot holds it, changes nothing. *)
Lemma bucket_delete_spec (b : list Z) (f : Z) :
  (exists pre post, b = pre ++ f :: post /\ bucket_delete b f = (true, pre ++ 0%Z :: post)) \/
  (~ In f b /\ bucket_delete b f = (false, b)).
Proof.
  induction b as [|x b IH]; simpl.
  - right. split; [tauto|reflexivity].
  - destruct (Z.eqb_spec x f) as [->|Hx].
    + left. exists [], b. split; reflexivity.
    + destruct IH as [(pre & post & -> & ->)|[Hnot ->]].
      * left. exists (x :: pre), post. split; reflexivity.
      * right. split; [intros [?|?]; auto|reflexivity].
Qed.

Lemma get_fingerprint_index_some (b : list Z) (f : Z) :
  is_some (get_fingerprint_index b f) = true <-> In f b.
Proof.
  induction b as [|x b IH]; simpl.
  - split; [discriminate|tauto].
  - destruct (Z.eqb_spec x f) as [->|Hx].
    + split; auto.
    + rewrite <- IH. destruct (get_fingerprint_index b f); simpl; intuition congruence.
Qed.

(** Replacing the bucket at [i]: the slots around it are unchanged. *)
Lemma concat_insert (bs : list (list Z)) (i : nat) (b b' : list Z) :
  bs !! i = Some b ->
  concat bs = concat (take i bs) ++ b ++ concat (drop (S i) bs) /\
  concat (<[i := b']> bs) = concat (take i bs) ++ b' ++ concat (drop (S i) bs).
Proof.
  intros Hb. split.
  - rewrite <- (take_drop_middle bs i b Hb) at 1.
    rewrite concat_app. reflexivity.
  - rewrite insert_take_drop by (eapply lookup_lt_Some; eassumption).
    rewrite concat_app. reflexivity.
Qed.

Lemma occ_concat_insert (bs : list (list Z)) (i : nat) (b b' : list Z) :
  bs !! i = Some b ->
  occ (concat (<[i := b']> bs)) + occ b = occ (concat bs) + occ b'.
Proof.
  intros Hb. destruct (concat_insert bs i b b' Hb) as [-> ->].
  rewrite !occ_app. lia.
Qed.

Lemma perm_concat_insert (bs : list (list Z)) (i : nat) (b b' : list Z) (x y : Z) :
  bs !! i = Some b -> Permutation (x :: b') (y :: b) ->
  Permutation (x :: concat (<[i := b']> bs)) (y :: concat bs).
Proof.
  intros Hb Hp. destruct (concat_insert bs i b b' Hb) as [-> ->].
  rewrite !(Permutation_middle (concat (take i bs))).
  apply Permutation_app_head. rewrite !app_comm_cons. apply Permutation_app_tail. exact Hp.
Qed.

(** Writing [x] over the slot [j] that held [old]. *)
Lemma occ_slot_insert (b : list Z) (j : nat) (old x : Z) :
  b !! j = Some old -> occ (<[j := x]> b) + occ [old] = occ b + occ [x].
Proof.
  intros Hj. rewrite insert_take_drop by (eapply lookup_lt_Some; eassumption).
  replace (occ b) with (occ (take j b ++ old :: drop (S j) b))
    by (rewrite take_drop_middle by exact Hj; reflexivity).
  rewrite !occ_app, !occ_cons. simpl. lia.
Qed.

Lemma perm_slot_insert (b : list Z) (j : nat) (old x : Z) :
  b !! j = Some old -> Permutation (old :: <[j := x]> b) (x :: b).
Proof.
  intros Hj. rewrite insert_take_drop by (eapply lookup_lt_Some; eassumption).
  rewrite <- (take_drop_middle b j old Hj) at 3.
  rewrite <- !Permutation_middle. apply perm_swap.
Qed.

End Buckets.

(** ** Filter operations *)

Section Operations.
Context {H : Hasher}.

Lemma mask_range (x : Z) (p : nat) :
  (0 <= Z.land x (Z.ones (Z.of_nat p)) < 2 ^ Z.of_nat p)%Z.
Proof.
  rewrite Z.land_ones by lia. apply Z.mod_pos_bound. apply Z.pow_pos_nonneg; lia.
Qed.

(** An index masked to [pow] bits addresses a bucket. *)
Lemma masked_index_lt (cf : CuckooFilter) (x : Z) :
  wf cf -> buckets cf <> [] ->
  Z.to_nat (Z.land x (Z.ones (Z.of_nat (pow cf)))) < length (buckets cf).
Proof.
  intros [_ [Hnil|Hpow]] Hne; [contradiction|].
  pose proof (mask_range x (pow cf)). lia.
Qed.

Lemma alt_index_lt (cf : CuckooFilter) (f i : Z) :
  wf cf -> buckets cf <> [] -> Z.to_nat (get_alt_index f i (pow cf)) < length (buckets cf).
Proof. intros. unfold get_alt_index. apply masked_index_lt; assumption. Qed.

Lemma fingerprint_nonzero (key : list Z) :
  fp_zero_replacement <> 0%Z -> fingerprint key <> 0%Z.
Proof.
  intros Hr. unfold fingerprint. destruct (Z.eqb_spec (fp_byte key) 0); assumption.
Qed.

Lemma wf_replace_bucket (cf : CuckooFilter) (n : nat) (b b' : list Z) (s : nat) :
  wf cf -> buckets cf !! n = Some b -> length b' = length b ->
  wf {| buckets := <[n := b']> (buckets cf); size := s; pow := pow cf |}.
Proof.
  intros [Hlen Hpow] Hb Hb'. split; simpl.
  - apply Forall_insert; [assumption|].
    rewrite Hb'. rewrite Forall_lookup in Hlen. exact (Hlen _ _ Hb).
  - rewrite length_insert. destruct Hpow as [Hnil|Hpow]; [|right; exact Hpow].
    rewrite Hnil in Hb. discriminate.
Qed.

(** [CuckooFilter::insert], by cases. *)
Lemma insert_spec (cf : CuckooFilter) (f i : Z) (ok : bool) (cf' : CuckooFilter) :
  insert cf f i = Some (ok, cf') ->
  buckets cf <> [] /\
  exists b, buckets cf !! (Z.to_nat i mod length (buckets cf)) = Some b /\
  ((ok = true /\ exists pre post, b = pre ++ 0%Z :: post /\
      cf' = {| buckets := <[Z.to_nat i mod length (buckets cf) := pre ++ f :: post]> (buckets cf);
               size := S (size cf); pow := pow cf |}) \/
   (ok = false /\ Forall (fun x => x <> 0%Z) b /\ cf' = cf)).
Proof.
  unfold insert. intros Hins.
  destruct (Nat.eqb_spec (length (buckets cf)) 0) as [|Hlen]; [discriminate|].
  split; [intros Hnil; rewrite Hnil in Hlen; simpl in Hlen; lia|].
  destruct (buckets cf !! (Z.to_nat i mod length (buckets cf))) as [b|] eqn:Hb; [|discriminate].
  exists b. split; [reflexivity|].
  destruct (bucket_insert_spec b f) as [(pre & post & -> & Hbi)|[Hall Hbi]];
    rewrite Hbi in Hins; injection Hins as <- <-.
  - left. split; [reflexivity|]. exists pre, post. split; reflexivity.
  - right. repeat split; assumption.
Qed.

(** A successful insert of a non-zero fingerprint fills one more slot. *)
Lemma insert_inv (cf : CuckooFilter) (f i : Z) (ok : bool) (cf' : CuckooFilter) :
  wf cf -> f <> 0%Z -> insert cf f i = Some (ok, cf') ->
  wf cf' /\ pow cf' = pow cf /\ length (buckets cf') = length (buckets cf) /\
  ((ok = true /\ size cf' = S (size cf) /\ occupied cf' = S (occupied cf)) \/
   (ok = false /\ cf' = cf /\
    exists b, buckets cf !! (Z.to_nat i mod length (buckets cf)) = Some b /\
              Forall (fun x => x <> 0%Z) b)).
Proof.
  intros Hwf Hf Hins.
  destruct (insert_spec cf f i ok cf' Hins) as (Hne & b & Hb & [(-> & pre & post & -> & ->)|(-> & Hall & ->)]).
  - split; [apply (wf_replace_bucket _ _ _ _ _ Hwf Hb); rewrite !length_app; reflexivity|].
    split; [reflexivity|]. split; [apply length_insert|].
    left. split; [reflexivity|]. split; [reflexivity|].
    unfold occupied, slots. simpl.
    pose proof (occ_concat_insert (buckets cf) _ _ (pre ++ f :: post) Hb) as E.
    rewrite !occ_app, !occ_cons in E. simpl in E.
    destruct (Z.eqb_spec f 0); [contradiction|]. lia.
  - split; [assumption|]. split; [reflexivity|]. split; [reflexivity|].
    right. split; [reflexivity|]. split; [reflexivity|]. exists b. split; assumption.
Qed.

Lemma insert_total (cf : CuckooFilter) (f i : Z) :
  buckets cf <> [] -> exists ok cf', insert cf f i = Some (ok, cf').
Proof.
  intros Hne. unfold insert.
  destruct (Nat.eqb_spec (length (buckets cf)) 0) as [Hlen|Hlen].
  { destruct (buckets cf); [contradiction|discriminate]. }
  destruct (lookup_lt_is_Some_2 (buckets cf) (Z.to_nat i mod length (buckets cf))) as [b Hb].
  { apply Nat.mod_upper_bound. exact Hlen. }
  rewrite Hb. destruct (bucket_insert b f) as [[|] b']; eauto.
Qed.

(** One eviction step: [f] goes into slot [j] of bucket [i], whose old
    content comes out. *)
Lemma swap_slot_spec (cf : CuckooFilter) (i : Z) (j : nat) (f old : Z) (cf1 : CuckooFilter) :
  swap_slot cf i j f = Some (old, cf1) ->
  exists b, buckets cf !! Z.to_nat i = Some b /\ b !! j = Some old /\
  cf1 = {| buckets := <[Z.to_nat i := <[j := f]> b]> (buckets cf);
           size := size cf; pow := pow cf |}.
Proof.
  unfold swap_slot. destruct (buckets cf !! Z.to_nat i) as [b|] eqn:Hb; [|discriminate].
  destruct (b !! j) as [o|] eqn:Hj; [|discriminate].
  intros E. injection E as <- <-. eauto.
Qed.

Lemma swap_slot_perm (cf : CuckooFilter) (i : Z) (j : nat) (f old : Z) (cf1 : CuckooFilter) :
  swap_slot cf i j f = Some (old, cf1) -> Permutation (old :: slots cf1) (f :: slots cf).
Proof.
  intros Hs. destruct (swap_slot_spec _ _ _ _ _ _ Hs) as (b & Hb & Hj & ->).
  unfold slots. simpl. apply (perm_concat_insert _ _ b); [exact Hb|].
  apply perm_slot_insert. exact Hj.
Qed.

(** A swap inside a full bucket keeps the number of occupied slots. *)
Lemma swap_slot_full (cf : CuckooFilter) (i : Z) (j : nat) (f old : Z) (cf1 : CuckooFilter)
    (b : list Z) :
  wf cf -> f <> 0%Z -> buckets cf !! Z.to_nat i = Some b -> Forall (fun x => x <> 0%Z) b ->
  swap_slot cf i j f = Some (old, cf1) ->
  old <> 0%Z /\ wf cf1 /\ pow cf1 = pow cf /\ length (buckets cf1) = length (buckets cf) /\
  size cf1 = size cf /\ occupied cf1 = occupied cf.
Proof.
  intros Hwf Hf Hb Hall Hs.
  destruct (swap_slot_spec _ _ _ _ _ _ Hs) as (b0 & Hb0 & Hj & ->).
  rewrite Hb in Hb0. injection Hb0 as <-.
  assert (Hold : old <> 0%Z) by (rewrite Forall_lookup in Hall; exact (Hall _ _ Hj)).
  split; [exact Hold|].
  split; [apply (wf_replace_bucket _ _ _ _ _ Hwf Hb); apply length_insert|].
  split; [reflexivity|]. split; [apply length_insert|]. split; [reflexivity|].
  unfold occupied, slots. simpl.
  pose proof (occ_concat_insert (buckets cf) _ _ (<[j := f]> b) Hb) as E1.
  pose proof (occ_slot_insert b j old f Hj) as E2.
  rewrite !occ_cons in E2. change (occ []) with 0 in E2.
  destruct (Z.eqb_spec old 0), (Z.eqb_spec f 0); try contradiction. lia.
Qed.

(** The eviction loop, on a full starting bucket: it either places one
    more fingerprint or, out of iterations, keeps the occupied count. *)
Lemma reinsert_loop_inv (fuel k : nat) (rng : nat -> nat) (f i : Z) (cf : CuckooFilter)
    (b : list Z) (r : CResult) (cf' : CuckooFilter) :
  wf cf -> f <> 0%Z -> buckets cf !! Z.to_nat i = Some b -> Forall (fun x => x <> 0%Z) b ->
  reinsert_loop fuel k rng f i cf = Some (r, cf') ->
  wf cf' /\ pow cf' = pow cf /\ length (buckets cf') = length (buckets cf) /\
  ((r = Ok /\ size cf' = S (size cf) /\ occupied cf' = S (occupied cf)) \/
   (r = Err NotEnoughSpace /\ size cf' = size cf /\ occupied cf' = occupied cf)).
Proof.
  revert k f i cf b. induction fuel as [|fuel IH]; intros k f i cf b Hwf Hf Hb Hall Hl;
    simpl in Hl.
  - injection Hl as <- <-. split; [assumption|]. split; [reflexivity|].
    split; [reflexivity|]. right. repeat split.
  - destruct (swap_slot cf i (rng k) f) as [[old cf1]|] eqn:Hs; [|discriminate].
    destruct (swap_slot_full _ _ _ _ _ _ _ Hwf Hf Hb Hall Hs)
      as (Hold & Hwf1 & Hp1 & Hl1 & Hsz1 & Ho1).
    destruct (insert cf1 old (get_alt_index old i (pow cf1))) as [[ok cf2]|] eqn:Hi;
      [|discriminate].
    destruct (insert_inv _ _ _ _ _ Hwf1 Hold Hi)
      as (Hwf2 & Hp2 & Hl2 & [(-> & Hsz2 & Ho2)|(-> & -> & b2 & Hb2 & Hall2)]).
    + injection Hl as <- <-. split; [assumption|]. split; [congruence|].
      split; [congruence|]. left. split; [reflexivity|]. lia.
    + assert (Hne : buckets cf1 <> []).
      { intros Hnil. rewrite Hnil in Hl1. simpl in Hl1.
        destruct (buckets cf); [discriminate|discriminate]. }
      rewrite Nat.mod_small in Hb2 by (apply alt_index_lt; assumption).
      destruct (IH _ _ _ _ _ Hwf1 Hold Hb2 Hall2 Hl) as (Hwf' & Hp' & Hl' & Hres).
      split; [assumption|]. split; [congruence|]. split; [congruence|].
      destruct Hres as [(-> & ? & ?)|(-> & ? & ?)]; [left|right]; (split; [reflexivity|]); lia.
Qed.

(** Fingerprints are only moved by the loop: when it gives up, the slots
    plus the fingerprint it still carries are the slots before plus the one
    it started with. *)
Lemma reinsert_loop_perm (fuel k : nat) (rng : nat -> nat) (f i : Z) (cf : CuckooFilter)
    (e : CuckooError) (cf' : CuckooFilter) :
  reinsert_loop fuel k rng f i cf = Some (Err e, cf') ->
  exists v, Permutation (v :: slots cf') (f :: slots cf).
Proof.
  revert k f i cf. induction fuel as [|fuel IH]; intros k f i cf Hl; simpl in Hl.
  - injection Hl as _ <-. exists f. reflexivity.
  - destruct (swap_slot cf i (rng k) f) as [[old cf1]|] eqn:Hs; [|discriminate].
    destruct (insert cf1 old (get_alt_index old i (pow cf1))) as [[[|] cf2]|] eqn:Hi;
      [discriminate| |discriminate].
    destruct (insert_spec _ _ _ _ _ Hi) as (_ & b & _ & [(? & _)|(_ & _ & ->)]);
      [discriminate|].
    destruct (IH _ _ _ _ Hl) as [v Hv]. exists v.
    etransitivity; [exact Hv|]. apply (swap_slot_perm _ _ _ _ _ _ Hs).
Qed.

(** With slots drawn in [0, BUCKET_SIZE), the loop never panics. *)
Lemma reinsert_loop_total (fuel k : nat) (rng : nat -> nat) (f i : Z) (cf : CuckooFilter)
    (b : list Z) :
  wf cf -> (forall n, rng n < BUCKET_SIZE) -> f <> 0%Z ->
  buckets cf !! Z.to_nat i = Some b -> Forall (fun x => x <> 0%Z) b ->
  exists r cf', reinsert_loop fuel k rng f i cf = Some (r, cf').
Proof.
  revert k f i cf b. induction fuel as [|fuel IH]; intros k f i cf b Hwf Hrng Hf Hb Hall;
    simpl; [eauto|].
  destruct (swap_slot cf i (rng k) f) as [[old cf1]|] eqn:Hs.
  2:{ exfalso. revert Hs. unfold swap_slot. rewrite Hb.
      destruct (lookup_lt_is_Some_2 b (rng k)) as [o Ho].
      { destruct Hwf as [Hlen _]. rewrite Forall_lookup in Hlen.
        rewrite (Hlen _ _ Hb). apply Hrng. }
      rewrite Ho. discriminate. }
  destruct (swap_slot_full _ _ _ _ _ _ _ Hwf Hf Hb Hall Hs)
    as (Hold & Hwf1 & Hp1 & Hl1 & Hsz1 & Ho1).
  assert (Hne : buckets cf1 <> []).
  { intros Hnil. rewrite Hnil in Hl1. simpl in Hl1.
    destruct (buckets cf); [discriminate|discriminate]. }
  destruct (insert_total cf1 old (get_alt_index old i (pow cf1)) Hne) as (ok & cf2 & Hi).
  rewrite Hi.
  destruct (insert_inv _ _ _ _ _ Hwf1 Hold Hi)
    as (Hwf2 & Hp2 & Hl2 & [(-> & _)|(-> & -> & b2 & Hb2 & Hall2)]); [eauto|].
  rewrite Nat.mod_small in Hb2 by (apply alt_index_lt; assumption).
  exact (IH _ _ _ _ _ Hwf1 Hrng Hold Hb2 Hall2).
Qed.

End Operations.

(** ** Public operations on well-formed filters *)

Section Invariants.
Context {H : Hasher}.

Lemma indices_lt (cf : CuckooFilter) (item : list Z) :
  wf cf -> buckets cf <> [] ->
  Z.to_nat (i1 (get_indices_and_fingerprint item (pow cf))) < length (buckets cf) /\
  Z.to_nat (i2 (get_indices_and_fingerprint item (pow cf))) < length (buckets cf).
Proof.
  intros Hwf Hne. simpl. split; [apply masked_index_lt|apply alt_index_lt]; assumption.
Qed.

Lemma add_inv (cf : CuckooFilter) (item : list Z) (coin : bool) (rng : nat -> nat)
    (r : CResult) (cf' : CuckooFilter) :
  wf cf -> fp_zero_replacement <> 0%Z -> add cf item coin rng = Some (r, cf') ->
  wf cf' /\ pow cf' = pow cf /\ length (buckets cf') = length (buckets cf) /\
  ((r = Ok /\ size cf' = S (size cf) /\ occupied cf' = S (occupied cf)) \/
   (r = Err NotEnoughSpace /\ size cf' = size cf /\ occupied cf' = occupied cf)).
Proof.
  intros Hwf Hr Hadd. unfold add in Hadd.
  assert (Hf : fp (get_indices_and_fingerprint item (pow cf)) <> 0%Z)
    by (apply fingerprint_nonzero; exact Hr).
  destruct (insert cf _ (i1 (get_indices_and_fingerprint item (pow cf)))) as [[ok1 cf1]|] eqn:E1;
    [|discriminate].
  destruct (insert_spec _ _ _ _ _ E1) as [Hne _].
  destruct (indices_lt cf item Hwf Hne) as [Hi1 Hi2].
  destruct (insert_inv _ _ _ _ _ Hwf Hf E1)
    as (Hwf1 & Hp1 & Hl1 & [(-> & Hs1 & Ho1)|(-> & -> & b1 & Hb1 & Hall1)]).
  { injection Hadd as <- <-. split; [assumption|]. split; [assumption|].
    split; [assumption|]. left. split; [reflexivity|]. split; assumption. }
  destruct (insert cf _ (i2 (get_indices_and_fingerprint item (pow cf)))) as [[ok2 cf2]|] eqn:E2;
    [|discriminate].
  destruct (insert_inv _ _ _ _ _ Hwf Hf E2)
    as (Hwf2 & Hp2 & Hl2 & [(-> & Hs2 & Ho2)|(-> & -> & b2 & Hb2 & Hall2)]).
  { injection Hadd as <- <-. split; [assumption|]. split; [assumption|].
    split; [assumption|]. left. split; [reflexivity|]. split; assumption. }
  rewrite Nat.mod_small in Hb1 by exact Hi1.
  rewrite Nat.mod_small in Hb2 by exact Hi2.
  unfold reinsert, rand_index in Hadd. destruct coin.
  - exact (reinsert_loop_inv _ _ _ _ _ _ _ _ _ Hwf Hf Hb1 Hall1 Hadd).
  - exact (reinsert_loop_inv _ _ _ _ _ _ _ _ _ Hwf Hf Hb2 Hall2 Hadd).
Qed.

(** [CuckooFilter::remove], by cases. *)
Lemma remove_spec (cf : CuckooFilter) (f i : Z) (ok : bool) (cf' : CuckooFilter) :
  remove cf f i = Some (ok, cf') ->
  exists b, buckets cf !! Z.to_nat i = Some b /\
  ((ok = true /\ exists pre post n, b = pre ++ f :: post /\ size cf = S n /\
      cf' = {| buckets := <[Z.to_nat i := pre ++ 0%Z :: post]> (buckets cf);
               size := n; pow := pow cf |}) \/
   (ok = false /\ ~ In f b /\ cf' = cf)).
Proof.
  unfold remove. destruct (buckets cf !! Z.to_nat i) as [b|] eqn:Hb; [|discriminate].
  intros Hrm. exists b. split; [reflexivity|].
  destruct (bucket_delete_spec b f) as [(pre & post & -> & Hbd)|[Hnot Hbd]];
    rewrite Hbd in Hrm.
  - destruct (size cf) as [|n] eqn:Hs; [discriminate|].
    injection Hrm as <- <-. left. split; [reflexivity|]. exists pre, post, n. auto.
  - injection Hrm as <- <-. right. auto.
Qed.

Lemma remove_inv (cf : CuckooFilter) (f i : Z) (ok : bool) (cf' : CuckooFilter) :
  wf cf -> f <> 0%Z -> remove cf f i = Some (ok, cf') ->
  wf cf' /\ pow cf' = pow cf /\ length (buckets cf') = length (buckets cf) /\
  ((ok = true /\ S (size cf') = size cf /\ S (occupied cf') = occupied cf) \/
   (ok = false /\ cf' = cf)).
Proof.
  intros Hwf Hf Hrm.
  destruct (remove_spec _ _ _ _ _ Hrm)
    as (b & Hb & [(-> & pre & post & n & -> & Hs & ->)|(-> & _ & ->)]).
  - split; [apply (wf_replace_bucket _ _ _ _ _ Hwf Hb); rewrite !length_app; reflexivity|].
    split; [reflexivity|]. split; [apply length_insert|].
    left. split; [reflexivity|]. split; [simpl; congruence|].
    unfold occupied, slots. simpl.
    pose proof (occ_concat_insert (buckets cf) _ _ (pre ++ 0%Z :: post) Hb) as E.
    rewrite !occ_app, !occ_cons in E. simpl in E.
    destruct (Z.eqb_spec f 0); [contradiction|]. lia.
  - split; [assumption|]. split; [reflexivity|]. split; [reflexivity|]. right. auto.
Qed.

Lemma delete_inv (cf : CuckooFilter) (data : list Z) (ok : bool) (cf' : CuckooFilter) :
  wf cf -> fp_zero_replacement <> 0%Z -> delete cf data = Some (ok, cf') ->
  wf cf' /\ pow cf' = pow cf /\ length (buckets cf') = length (buckets cf) /\
  ((ok = true /\ S (size cf') = size cf /\ S (occupied cf') = occupied cf) \/
   (ok = false /\ cf' = cf)).
Proof.
  intros Hwf Hr Hdel. unfold delete in Hdel.
  assert (Hf : fp (get_indices_and_fingerprint data (pow cf)) <> 0%Z)
    by (apply fingerprint_nonzero; exact Hr).
  destruct (remove cf _ (i1 (get_indices_and_fingerprint data (pow cf)))) as [[ok1 cf1]|] eqn:E1;
    [|discriminate].
  destruct (remove_inv _ _ _ _ _ Hwf Hf E1)
    as (Hwf1 & Hp1 & Hl1 & [(-> & Hs1 & Ho1)|(-> & ->)]).
  - injection Hdel as <- <-. split; [assumption|]. split; [assumption|].
    split; [assumption|]. left. auto.
  - exact (remove_inv _ _ _ _ _ Hwf Hf Hdel).
Qed.

Lemma occupied_with_capacity (n : nat) : occupied (with_capacity n) = 0.
Proof.
  unfold occupied, slots, with_capacity. cbn [buckets].
  induction n as [|n IH]; [reflexivity|].
  change (concat (repeat bucket_new (S n))) with (bucket_new ++ concat (repeat bucket_new n)).
  rewrite occ_app, IH. reflexivity.
Qed.

Lemma with_capacity_wf (n : nat) : (Z.of_nat n < two64)%Z -> wf (with_capacity n).
Proof.
  intros Hn. split; simpl.
  - apply List.Forall_forall. intros b Hb. apply repeat_spec in Hb. subst b. reflexivity.
  - destruct n as [|n]; [left; reflexivity|right].
    rewrite repeat_length.
    destruct (trailing_zeros_spec (S n)) as (q & Hq & E); [lia|assumption|].
    rewrite E. pose proof (Z.pow_pos_nonneg 2 (Z.of_nat (trailing_zeros (S n)))). nia.
Qed.

Lemma reachable_inv (cf : CuckooFilter) :
  fp_zero_replacement <> 0%Z -> reachable cf -> wf cf /\ size cf = occupied cf.
Proof.
  intros Hr. induction 1 as [n Hn|cf item coin rng r cf' _ [Hwf Hsz] Hadd
                             |cf data ok cf' _ [Hwf Hsz] Hdel].
  - split; [apply with_capacity_wf; exact Hn|]. rewrite occupied_with_capacity. reflexivity.
  - destruct (add_inv _ _ _ _ _ _ Hwf Hr Hadd)
      as (Hwf' & _ & _ & [(_ & Hs & Ho)|(_ & Hs & Ho)]); split; try assumption; lia.
  - destruct (delete_inv _ _ _ _ Hwf Hr Hdel)
      as (Hwf' & _ & _ & [(_ & Hs & Ho)|(_ & ->)]); split; try assumption; lia.
Qed.

End Invariants.

(** ** Helpers for the claims *)

Section ClaimHelpers.
Context {H : Hasher}.

(** A slot changed by a bucket write [pre ++ f :: post ~> pre ++ y :: post]
    is the slot that held [f]. *)
Lemma middle_slot_change (pre post : list Z) (f y x : Z) (s : nat) :
  (pre ++ f :: post) !! s = Some x -> (pre ++ y :: post) !! s <> Some x ->
  x = f /\ (pre ++ y :: post) !! s = Some y.
Proof.
  intros Hx Hne.
  destruct (lt_eq_lt_dec s (length pre)) as [[Hlt| ->]|Hgt].
  - rewrite lookup_app_l in Hx, Hne by exact Hlt. contradiction.
  - rewrite list_lookup_middle in Hx, Hne |- * by reflexivity.
    injection Hx as <-. auto.
  - rewrite lookup_app_r in Hx, Hne by lia.
    destruct (s - length pre) as [|d] eqn:Hd; [lia|]. simpl in Hx, Hne. contradiction.
Qed.

(** [remove] clears at most one slot, one that held [f]. *)
Lemma remove_only_clears (cf : CuckooFilter) (f i : Z) (ok : bool) (cf' : CuckooFilter) :
  remove cf f i = Some (ok, cf') ->
  pow cf' = pow cf /\ length (buckets cf') = length (buckets cf) /\
  forall n s x, slot_at cf n s = Some x -> slot_at cf' n s <> Some x ->
                x = f /\ slot_at cf' n s = Some 0%Z.
Proof.
  intros Hrm.
  destruct (remove_spec _ _ _ _ _ Hrm)
    as (b & Hb & [(-> & pre & post & m & -> & _ & ->)|(-> & _ & ->)]).
  - split; [reflexivity|]. split; [apply length_insert|].
    intros n s x Hx Hne. unfold slot_at in *. simpl in *.
    destruct (decide (n = Z.to_nat i)) as [->|Hn].
    + rewrite Hb in Hx. rewrite list_lookup_insert_eq in Hne |- *
        by (eapply lookup_lt_Some; exact Hb).
      exact (middle_slot_change _ _ _ _ _ _ Hx Hne).
    + rewrite list_lookup_insert_ne in Hne by congruence. contradiction.
  - split; [reflexivity|]. split; [reflexivity|]. intros n s x Hx Hne. contradiction.
Qed.

Lemma remove_absent (cf : CuckooFilter) (f i : Z) (b : list Z) :
  buckets cf !! Z.to_nat i = Some b -> ~ In f b -> remove cf f i = Some (false, cf).
Proof.
  intros Hb Hnot. unfold remove. rewrite Hb.
  destruct (bucket_delete_spec b f) as [(pre & post & -> & _)|[_ ->]]; [|reflexivity].
  exfalso. apply Hnot. apply in_or_app. right. left. reflexivity.
Qed.

(** When it finds [f], [remove] does not underflow [size] on a filter whose
    size counts its occupied slots. *)
Lemma remove_total (cf : CuckooFilter) (f i : Z) :
  size cf = occupied cf -> f <> 0%Z -> Z.to_nat i < length (buckets cf) ->
  exists ok cf', remove cf f i = Some (ok, cf').
Proof.
  intros Hsz Hf Hi. unfold remove.
  destruct (lookup_lt_is_Some_2 _ _ Hi) as [b Hb]. rewrite Hb.
  destruct (bucket_delete_spec b f) as [(pre & post & -> & Hbd)|[_ Hbd]]; rewrite Hbd; [|eauto].
  destruct (size cf) as [|n] eqn:Hs; [|eauto].
  exfalso. unfold occupied, slots in Hsz.
  destruct (concat_insert (buckets cf) _ _ [] Hb) as [E _].
  rewrite E, !occ_app, occ_cons in Hsz.
  destruct (Z.eqb_spec f 0); [contradiction|]. lia.
Qed.

Lemma upper_power2_ge (x : Z) : (1 <= x)%Z -> (x <= upper_power2 x)%Z.
Proof.
  intros Hx. unfold upper_power2. apply Z.log2_up_le_pow2; lia.
Qed.

Lemma upper_power2_least (x k : Z) :
  (1 <= x)%Z -> (0 <= k)%Z -> (x <= 2 ^ k)%Z -> (upper_power2 x <= 2 ^ k)%Z.
Proof.
  intros Hx Hk Hxk. unfold upper_power2. apply Z.pow_le_mono_r; [lia|].
  apply Z.log2_up_le_pow2; lia.
Qed.

Lemma gen_size_cases (m : Z) :
  gen_size m = upper_power2 (Z.max 1 (m / 4)) \/
  gen_size m = (2 * upper_power2 (Z.max 1 (m / 4)))%Z.
Proof.
  unfold gen_size. change (Z.of_nat BUCKET_SIZE) with 4%Z.
  destruct (f64_gt _ f64_0_96); [right|left]; [|reflexivity].
  rewrite Z.shiftl_mul_pow2 by lia. lia.
Qed.

Lemma gen_size_range (m : Z) : (0 <= m < two64)%Z -> (1 <= gen_size m <= 2 ^ 63)%Z.
Proof.
  intros Hm. unfold two64 in Hm.
  assert (H1 : (1 <= upper_power2 (Z.max 1 (m / 4)))%Z).
  { pose proof (upper_power2_ge (Z.max 1 (m / 4))). lia. }
  assert (H2 : (upper_power2 (Z.max 1 (m / 4)) <= 2 ^ 62)%Z).
  { apply upper_power2_least; [lia|lia|].
    apply Z.max_lub; [lia|]. apply Z.div_le_upper_bound; lia. }
  destruct (gen_size_cases m) as [->| ->]; lia.
Qed.

Lemma new_reachable (m : Z) :
  (0 <= m < two64)%Z -> reachable (new m) /\ buckets (new m) <> [].
Proof.
  intros Hm. pose proof (gen_size_range m Hm) as Hg. split.
  - unfold new. apply reach_with_capacity. unfold two64 in *. lia.
  - unfold new, with_capacity. simpl.
    destruct (Z.to_nat (gen_size m)) eqn:E; [lia|]. discriminate.
Qed.

Lemma trailing_zeros_pow2 (k : nat) : k < 64 -> trailing_zeros (2 ^ k) = k.
Proof.
  intros Hk. unfold trailing_zeros.
  destruct (Nat.eqb_spec (2 ^ k) 0) as [E|_]; [apply Nat.pow_nonzero in E; lia|].
  rewrite Nat2Z.inj_pow. change (Z.of_nat 2) with 2%Z.
  pose proof (land_isolates_lowest_bit (Z.of_nat k) 0 ltac:(lia) ltac:(lia)) as E.
  rewrite Z.mul_0_r, Z.add_0_l, Z.mul_1_r in E.
  assert (Hlt : (2 ^ Z.of_nat k < two64)%Z).
  { unfold two64. apply Z.pow_lt_mono_r; lia. }
  replace (Z.land (2 ^ Z.of_nat k) ((- 2 ^ Z.of_nat k) mod two64)) with (2 ^ Z.of_nat k)%Z.
  - rewrite de_bruijn_table by exact Hk. reflexivity.
  - unfold two64 in *.
    rewrite <- Z.land_ones by lia.
    rewrite Z.land_assoc, (Z.land_comm (2 ^ Z.of_nat k)), <- Z.land_assoc.
    rewrite (Z.land_ones (2 ^ Z.of_nat k)) by lia.
    rewrite Z.mod_small by (split; [apply Z.pow_nonneg; lia|exact Hlt]).
    rewrite Z.land_comm. symmetry. exact E.
Qed.

End ClaimHelpers.

Lemma add_all_reachable (keys : list (list Z)) (cf cf' : CuckooFilter) :
  @reachable sample_hasher cf -> add_all cf keys = Some cf' -> @reachable sample_hasher cf'.
Proof.
  unfold add_all. intros Hr.
  assert (Hacc : forall c, Some cf = Some c -> @reachable sample_hasher c)
    by (intros c E; injection E as <-; exact Hr).
  clear Hr. revert Hacc. generalize (Some cf) as acc.
  induction keys as [|key keys IH]; intros acc Hacc Hall; simpl in Hall.
  - exact (Hacc _ Hall).
  - refine (IH _ _ Hall). intros c E.
    destruct acc as [c0|]; [|discriminate].
    destruct (sample_add c0 key true (fun _ => 0%nat)) as [[r c1]|] eqn:Ha; [|discriminate].
    injection E as <-. exact (reach_add _ _ _ _ _ _ (Hacc c0 eq_refl) Ha).
Qed.

(** ** The claims *)

Section Claims.
Context {H : Hasher}.

(** C3 (as amended): when [add] gives up with [NotEnoughSpace], the number
    of occupied slots and [size()] are the same as before the call. *)
Theorem add_failure_keeps_occupied_count (cf : CuckooFilter) (item : list Z) (coin : bool)
    (rng : nat -> nat) (e : CuckooError) (cf' : CuckooFilter) :
  fp_zero_replacement <> 0%Z -> reachable cf -> add cf item coin rng = Some (Err e, cf') ->
  e = NotEnoughSpace /\ size cf' = size cf /\ occupied cf' = occupied cf.
Proof.
  intros Hr Hreach Hadd.
  destruct (reachable_inv cf Hr Hreach) as [Hwf _].
  destruct (add_inv _ _ _ _ _ _ Hwf Hr Hadd) as (_ & _ & _ & [(? & _)|(E & Hs & Ho)]);
    [discriminate|].
  injection E as ->. auto.
Qed.

(** C4 (as amended): when [add] fails, the slots after the call plus one
    dropped fingerprint [v] are a permutation of the slots before the call
    plus the item's fingerprint. *)
Theorem add_failure_trades_one_fingerprint (cf : CuckooFilter) (item : list Z) (coin : bool)
    (rng : nat -> nat) (e : CuckooError) (cf' : CuckooFilter) :
  add cf item coin rng = Some (Err e, cf') ->
  exists v, Permutation (v :: slots cf') (fingerprint item :: slots cf).
Proof.
  intros Hadd. unfold add in Hadd.
  destruct (insert cf _ (i1 (get_indices_and_fingerprint item (pow cf)))) as [[ok1 cf1]|] eqn:E1;
    [|discriminate].
  destruct (insert_spec _ _ _ _ _ E1) as (_ & b1 & _ & [(-> & _)|(-> & _ & ->)]);
    [discriminate|].
  destruct (insert cf _ (i2 (get_indices_and_fingerprint item (pow cf)))) as [[ok2 cf2]|] eqn:E2;
    [|discriminate].
  destruct (insert_spec _ _ _ _ _ E2) as (_ & b2 & _ & [(-> & _)|(-> & _ & ->)]);
    [discriminate|].
  unfold reinsert in Hadd.
  exact (reinsert_loop_perm _ _ _ _ _ _ _ _ Hadd).
Qed.

(** C5: on every reachable filter (fingerprints being non-zero), [size()]
    is the number of non-zero slots; a successful [add] adds one, a
    successful [delete] removes one, a failed [add] keeps the count and a
    failed [delete] changes nothing. *)
Theorem size_counts_occupied_slots (cf : CuckooFilter) :
  fp_zero_replacement <> 0%Z -> reachable cf ->
  size cf = occupied cf /\
  (forall item coin rng cf', add cf item coin rng = Some (Ok, cf') ->
     size cf' = S (size cf) /\ size cf' = occupied cf') /\
  (forall item coin rng e cf', add cf item coin rng = Some (Err e, cf') ->
     size cf' = size cf /\ size cf' = occupied cf') /\
  (forall data cf', delete cf data = Some (true, cf') ->
     S (size cf') = size cf /\ size cf' = occupied cf') /\
  (forall data cf', delete cf data = Some (false, cf') -> cf' = cf).
Proof.
  intros Hr Hreach. destruct (reachable_inv cf Hr Hreach) as [Hwf Hsz].
  split; [exact Hsz|]. split; [|split; [|split]].
  - intros item coin rng cf' Hadd.
    destruct (add_inv _ _ _ _ _ _ Hwf Hr Hadd) as (_ & _ & _ & [(_ & Hs & Ho)|(? & _)]);
      [lia|discriminate].
  - intros item coin rng e cf' Hadd.
    destruct (add_inv _ _ _ _ _ _ Hwf Hr Hadd) as (_ & _ & _ & [(? & _)|(_ & Hs & Ho)]);
      [discriminate|lia].
  - intros data cf' Hdel.
    destruct (delete_inv _ _ _ _ Hwf Hr Hdel) as (_ & _ & _ & [(_ & Hs & Ho)|(? & _)]);
      [lia|discriminate].
  - intros data cf' Hdel.
    destruct (delete_inv _ _ _ _ Hwf Hr Hdel) as (_ & _ & _ & [(? & _)|(_ & ->)]);
      [discriminate|reflexivity].
Qed.

(** C6 (as amended): [new] never yields an empty bucket array, and on every
    reachable filter with at least one bucket, [add] (slots drawn in
    [0, BUCKET_SIZE)), [contains] and [delete] never panic, whatever the
    key, the empty one included. *)
Theorem nonempty_filter_ops_total :
  fp_zero_replacement <> 0%Z ->
  (forall m, (0 <= m < two64)%Z -> reachable (new m) /\ buckets (new m) <> []) /\
  (forall cf, reachable cf -> buckets cf <> [] ->
     (forall item coin rng, (forall k, rng k < BUCKET_SIZE) ->
        exists r cf', add cf item coin rng = Some (r, cf')) /\
     (forall data, exists ok, contains cf data = Some ok) /\
     (forall data, exists ok cf', delete cf data = Some (ok, cf'))).
Proof.
  intros Hr. split; [exact new_reachable|].
  intros cf Hreach Hne. destruct (reachable_inv cf Hr Hreach) as [Hwf Hsz].
  split; [|split].
  - intros item coin rng Hrng. unfold add.
    assert (Hf : fp (get_indices_and_fingerprint item (pow cf)) <> 0%Z)
      by (apply fingerprint_nonzero; exact Hr).
    destruct (indices_lt cf item Hwf Hne) as [Hi1 Hi2].
    destruct (insert_total cf (fp (get_indices_and_fingerprint item (pow cf)))
               (i1 (get_indices_and_fingerprint item (pow cf))) Hne) as (ok1 & cf1 & E1).
    rewrite E1.
    destruct (insert_inv _ _ _ _ _ Hwf Hf E1)
      as (_ & _ & _ & [(-> & _)|(-> & -> & b1 & Hb1 & Hall1)]); [eauto|].
    destruct (insert_total cf (fp (get_indices_and_fingerprint item (pow cf)))
               (i2 (get_indices_and_fingerprint item (pow cf))) Hne) as (ok2 & cf2 & E2).
    rewrite E2.
    destruct (insert_inv _ _ _ _ _ Hwf Hf E2)
      as (_ & _ & _ & [(-> & _)|(-> & -> & b2 & Hb2 & Hall2)]); [eauto|].
    rewrite Nat.mod_small in Hb1 by exact Hi1.
    rewrite Nat.mod_small in Hb2 by exact Hi2.
    unfold reinsert, rand_index. destruct coin.
    + exact (reinsert_loop_total _ _ _ _ _ _ _ Hwf Hrng Hf Hb1 Hall1).
    + exact (reinsert_loop_total _ _ _ _ _ _ _ Hwf Hrng Hf Hb2 Hall2).
  - intros data. unfold contains.
    destruct (indices_lt cf data Hwf Hne) as [Hi1 _].
    destruct (lookup_lt_is_Some_2 _ _ Hi1) as [b1 Hb1]. rewrite Hb1. eauto.
  - intros data. unfold delete.
    assert (Hf : fp (get_indices_and_fingerprint data (pow cf)) <> 0%Z)
      by (apply fingerprint_nonzero; exact Hr).
    destruct (indices_lt cf data Hwf Hne) as [Hi1 Hi2].
    destruct (remove_total cf _ _ Hsz Hf Hi1) as ([|] & cf1 & E1); rewrite E1; [eauto|].
    destruct (remove_spec _ _ _ _ _ E1) as (b & _ & [(? & _)|(_ & _ & ->)]); [discriminate|].
    exact (remove_total cf _ _ Hsz Hf Hi2).
Qed.

(** C7 (as amended): [with_capacity n] allocates exactly [n] zeroed buckets
    (no rounding), with [size() = 0] and [pow = trailing_zeros n]: 64 for
    [n = 0], otherwise the exponent of the largest power of two dividing
    [n]; the array length is [2^pow] when [n] is a power of two. *)
Theorem with_capacity_layout (n : nat) :
  (Z.of_nat n < two64)%Z ->
  length (buckets (with_capacity n)) = n /\
  Forall (fun b => b = [0; 0; 0; 0]%Z) (buckets (with_capacity n)) /\
  size (with_capacity n) = 0 /\
  (n = 0 -> pow (with_capacity n) = 64) /\
  (0 < n -> exists q, (0 <= q)%Z /\
     Z.of_nat n = (2 ^ Z.of_nat (pow (with_capacity n)) * (2 * q + 1))%Z) /\
  (forall k, k < 64 -> n = 2 ^ k ->
     pow (with_capacity n) = k /\ length (buckets (with_capacity n)) = 2 ^ pow (with_capacity n)).
Proof.
  intros Hn. simpl. split; [apply repeat_length|].
  split; [apply List.Forall_forall; intros b Hb; apply repeat_spec in Hb; exact Hb|].
  split; [reflexivity|]. split; [intros ->; reflexivity|].
  split; [intros Hpos; apply trailing_zeros_spec; assumption|].
  intros k Hk ->. rewrite trailing_zeros_pow2 by exact Hk.
  split; [reflexivity|]. apply repeat_length.
Qed.

(** C8: the alternate index is an involution on the indices of [pow] bits;
    the record's [i2] is the alternate of [i1] and [i1] that of [i2]. *)
Theorem alt_index_involutive (f i : Z) (p : nat) :
  (0 <= i < 2 ^ Z.of_nat p)%Z ->
  (0 <= get_alt_index f i p < 2 ^ Z.of_nat p)%Z /\
  get_alt_index f (get_alt_index f i p) p = i /\
  (forall item, let r := get_indices_and_fingerprint item p in
     i2 r = get_alt_index (fp r) (i1 r) p /\ get_alt_index (fp r) (i2 r) p = i1 r).
Proof.
  assert (Hinv : forall f i, (0 <= i < 2 ^ Z.of_nat p)%Z ->
            get_alt_index f (get_alt_index f i p) p = i).
  { intros g j Hj. unfold get_alt_index.
    rewrite <- (Z.mod_small j (2 ^ Z.of_nat p)) at 2 by exact Hj.
    rewrite <- Z.land_ones by lia.
    apply Z.bits_inj'. intros n Hn.
    repeat first [rewrite Z.land_spec | rewrite Z.lxor_spec].
    destruct (Z.testbit j n), (Z.testbit (hash_fp g) n), (Z.testbit (Z.ones (Z.of_nat p)) n);
      reflexivity. }
  intros Hi. split; [apply mask_range|]. split; [exact (Hinv f i Hi)|].
  intros item. simpl. split; [reflexivity|].
  apply Hinv. apply mask_range.
Qed.

(** C9 (as amended): [gen_size m] is [nb], the least power of two at least
    [max(1, m / 4)], doubled exactly when the binary64 quotient
    [(m as f64) / (nb as f64) / 4.0] exceeds the binary64 literal [0.96];
    [gen_size 100 = 32] and [gen_size 64 = 32]. *)
Theorem gen_size_spec (m : Z) :
  let nb := upper_power2 (Z.max 1 (m / 4)) in
  (exists k, (0 <= k)%Z /\ nb = (2 ^ k)%Z) /\
  (Z.max 1 (m / 4) <= nb)%Z /\
  (forall k, (0 <= k)%Z -> (Z.max 1 (m / 4) <= 2 ^ k)%Z -> (nb <= 2 ^ k)%Z) /\
  gen_size m = (if f64_gt (f64_div (f64_div (f64_of_u64 m) (f64_of_u64 nb)) (f64_of_u64 4))
                          f64_0_96
                then 2 * nb else nb)%Z /\
  gen_size 100 = 32%Z /\ gen_size 64 = 32%Z.
Proof.
  intros nb. split; [|split; [|split; [|split]]].
  - exists (Z.log2_up (Z.max 1 (m / 4))). split; [apply Z.log2_up_nonneg|reflexivity].
  - apply upper_power2_ge. lia.
  - intros k Hk Hle. apply upper_power2_least; lia.
  - unfold gen_size. change (Z.of_nat BUCKET_SIZE) with 4%Z. fold nb.
    destruct (f64_gt _ f64_0_96); [|reflexivity].
    rewrite Z.shiftl_mul_pow2 by lia. lia.
  - split; vm_compute; reflexivity.
Qed.

(** C10: when the fingerprint is in neither candidate bucket, [delete]
    returns [false] and leaves the filter as it was; in every case [delete]
    only clears a slot that held the fingerprint. *)
Theorem delete_absent_is_noop (cf : CuckooFilter) (data : list Z) :
  let finger := get_indices_and_fingerprint data (pow cf) in
  (forall b1 b2,
     buckets cf !! Z.to_nat (i1 finger) = Some b1 ->
     buckets cf !! Z.to_nat (i2 finger) = Some b2 ->
     ~ In (fp finger) b1 -> ~ In (fp finger) b2 ->
     delete cf data = Some (false, cf)) /\
  (forall ok cf', delete cf data = Some (ok, cf') ->
     pow cf' = pow cf /\ length (buckets cf') = length (buckets cf) /\
     forall n s x, slot_at cf n s = Some x -> slot_at cf' n s <> Some x ->
       x = fp finger /\ slot_at cf' n s = Some 0%Z).
Proof.
  intros finger. split.
  - intros b1 b2 Hb1 Hb2 Hn1 Hn2. unfold delete. fold finger.
    rewrite (remove_absent cf _ _ b1 Hb1 Hn1).
    exact (remove_absent cf _ _ b2 Hb2 Hn2).
  - intros ok cf' Hdel. unfold delete in Hdel. fold finger in Hdel.
    destruct (remove cf (fp finger) (i1 finger)) as [[[|] cf1]|] eqn:E1; [| |discriminate].
    + injection Hdel as _ <-. exact (remove_only_clears _ _ _ _ _ E1).
    + destruct (remove_spec _ _ _ _ _ E1) as (b & _ & [(? & _)|(_ & _ & ->)]);
        [discriminate|].
      exact (remove_only_clears _ _ _ _ _ Hdel).
Qed.

End Claims.

(** ** Runs of the filter with [sample_hasher] *)

(** C1 (defect of [contains]): a fingerprint stored only in the alternate bucket [i2]
    (bucket [i1] being full) is not found by [contains], which reads bucket
    [i1] twice. *)
Theorem contains_misses_alternate_bucket :
  exists cf,
    add_all (with_capacity 2) [[1; 0]; [3; 0]; [5; 0]; [7; 0]; [9; 0]]%Z = Some cf /\
    buckets cf = [[1; 3; 5; 7]; [9; 0; 0; 0]]%Z /\
    @get_indices_and_fingerprint sample_hasher [9; 0]%Z (pow cf)
      = {| fp := 9; i1 := 0; i2 := 1 |}%Z /\
    slot_at cf 1 0 = Some 9%Z /\
    sample_contains cf [9; 0]%Z = Some false.
Proof.
  exists {| buckets := [[1; 3; 5; 7]; [9; 0; 0; 0]]%Z; size := 5; pow := 1 |}.
  repeat match goal with |- _ /\ _ => split end; vm_compute; reflexivity.
Qed.

(** C2 (defect of [contains]): [add] returns [Ok] for the key [[9; 0]] and the very
    next [contains] on that key answers [false]. *)
Theorem add_ok_then_contains_false :
  exists cf cf',
    bucket0_full = Some cf /\
    sample_add cf [9; 0]%Z true (fun _ => 0%nat) = Some (Ok, cf') /\
    sample_contains cf' [9; 0]%Z = Some false.
Proof.
  exists {| buckets := [[1; 3; 5; 7]; [0; 0; 0; 0]]%Z; size := 4; pow := 1 |},
         {| buckets := [[1; 3; 5; 7]; [9; 0; 0; 0]]%Z; size := 5; pow := 1 |}.
  repeat match goal with |- _ /\ _ => split end; vm_compute; reflexivity.
Qed.

(** C3, counterexample: a failed [add] on a single full bucket leaves the
    slots [[5; 1; 3; 4]] where there were [[1; 2; 3; 4]]: the stored
    fingerprints are not a permutation of the former ones. *)
Lemma add_failure_changes_fingerprints :
  exists cf cf',
    single_bucket_full = Some cf /\
    sample_add cf [5; 0]%Z true (fun k => Nat.min k 1) = Some (Err NotEnoughSpace, cf') /\
    slots cf = [1; 2; 3; 4]%Z /\ slots cf' = [5; 1; 3; 4]%Z /\
    ~ Permutation (slots cf') (slots cf).
Proof.
  exists {| buckets := [[1; 2; 3; 4]]%Z; size := 4; pow := 0 |},
         {| buckets := [[5; 1; 3; 4]]%Z; size := 4; pow := 0 |}.
  repeat match goal with |- _ /\ _ => split end; [vm_compute; reflexivity ..|].
  intros Hp. apply (Permutation_in 5%Z) in Hp; [|simpl; auto].
  simpl in Hp. lia.
Qed.

(** C3, witness of [add_failure_keeps_occupied_count] on that run. *)
Lemma add_failure_keeps_occupied_count_witness :
  exists cf cf',
    single_bucket_full = Some cf /\
    sample_add cf [5; 0]%Z true (fun k => Nat.min k 1) = Some (Err NotEnoughSpace, cf') /\
    (NotEnoughSpace = NotEnoughSpace /\ size cf' = size cf /\ occupied cf' = occupied cf).
Proof.
  exists {| buckets := [[1; 2; 3; 4]]%Z; size := 4; pow := 0 |},
         {| buckets := [[5; 1; 3; 4]]%Z; size := 4; pow := 0 |}.
  assert (Hs : single_bucket_full = Some {| buckets := [[1; 2; 3; 4]]%Z; size := 4; pow := 0 |})
    by (vm_compute; reflexivity).
  assert (Ha : sample_add {| buckets := [[1; 2; 3; 4]]%Z; size := 4; pow := 0 |} [5; 0]%Z true
                 (fun k => Nat.min k 1)
               = Some (Err NotEnoughSpace, {| buckets := [[5; 1; 3; 4]]%Z; size := 4; pow := 0 |}))
    by (vm_compute; reflexivity).
  split; [exact Hs|]. split; [exact Ha|].
  apply (@add_failure_keeps_occupied_count sample_hasher _ [5; 0]%Z true (fun k => Nat.min k 1)).
  - discriminate.
  - refine (add_all_reachable _ _ _ _ Hs).
    apply reach_with_capacity. vm_compute. reflexivity.
  - exact Ha.
Defined.

(** C4, counterexample: with every eviction drawing slot 0, a failed [add]
    of the key [[5; 0]] leaves the filter exactly as it was, and the
    fingerprint 5 is stored nowhere. *)
Lemma add_failure_drops_new_fingerprint :
  exists cf cf',
    single_bucket_full = Some cf /\
    sample_add cf [5; 0]%Z true (fun _ => 0%nat) = Some (Err NotEnoughSpace, cf') /\
    @fingerprint sample_hasher [5; 0]%Z = 5%Z /\
    slots cf' = slots cf /\ ~ In 5%Z (slots cf').
Proof.
  exists {| buckets := [[1; 2; 3; 4]]%Z; size := 4; pow := 0 |},
         {| buckets := [[1; 2; 3; 4]]%Z; size := 4; pow := 0 |}.
  repeat match goal with |- _ /\ _ => split end; [vm_compute; reflexivity ..|].
  simpl. lia.
Qed.

(** C4, witness of [add_failure_trades_one_fingerprint]. *)
Lemma add_failure_trades_one_fingerprint_witness :
  exists v,
    Permutation (v :: slots {| buckets := [[5; 1; 3; 4]]%Z; size := 4; pow := 0 |})
      (@fingerprint sample_hasher [5; 0]%Z
         :: slots {| buckets := [[1; 2; 3; 4]]%Z; size := 4; pow := 0 |}).
Proof.
  apply (@add_failure_trades_one_fingerprint sample_hasher _ [5; 0]%Z true
           (fun k => Nat.min k 1) NotEnoughSpace).
  vm_compute. reflexivity.
Defined.

(** C5, witness of [size_counts_occupied_slots] on a fresh one-bucket filter. *)
Lemma size_counts_occupied_slots_witness :
  @fp_zero_replacement sample_hasher <> 0%Z /\
  @reachable sample_hasher
    {| buckets := [[1; 3; 0; 0]; [0; 0; 0; 0]]%Z; size := 2; pow := 1 |} /\
  size {| buckets := [[1; 3; 0; 0]; [0; 0; 0; 0]]%Z; size := 2; pow := 1 |} =
    occupied {| buckets := [[1; 3; 0; 0]; [0; 0; 0; 0]]%Z; size := 2; pow := 1 |} /\
  @delete sample_hasher {| buckets := [[1; 3; 0; 0]; [0; 0; 0; 0]]%Z; size := 2; pow := 1 |}
    [1; 0]%Z =
    Some (true, {| buckets := [[0; 3; 0; 0]; [0; 0; 0; 0]]%Z; size := 1; pow := 1 |}) /\
  S (size {| buckets := [[0; 3; 0; 0]; [0; 0; 0; 0]]%Z; size := 1; pow := 1 |}) =
    size {| buckets := [[1; 3; 0; 0]; [0; 0; 0; 0]]%Z; size := 2; pow := 1 |} /\
  size {| buckets := [[0; 3; 0; 0]; [0; 0; 0; 0]]%Z; size := 1; pow := 1 |} =
    occupied {| buckets := [[0; 3; 0; 0]; [0; 0; 0; 0]]%Z; size := 1; pow := 1 |}.
Proof.
  assert (Hr : @fp_zero_replacement sample_hasher <> 0%Z) by discriminate.
  (* [with_capacity 2], then [add(b"\x01\x00")], [add(b"\x02\x01")],
     [add(b"\x03\x00")] and [delete(b"\x02\x01")] *)
  assert (R0 : @reachable sample_hasher (with_capacity 2))
    by (apply reach_with_capacity; vm_compute; reflexivity).
  assert (R1 : @reachable sample_hasher
                 {| buckets := [[1; 0; 0; 0]; [0; 0; 0; 0]]%Z; size := 1; pow := 1 |}).
  { apply (reach_add (with_capacity 2) [1; 0]%Z true (fun _ => 0%nat) Ok); [exact R0|].
    vm_compute. reflexivity. }
  assert (R2 : @reachable sample_hasher
                 {| buckets := [[1; 0; 0; 0]; [2; 0; 0; 0]]%Z; size := 2; pow := 1 |}).
  { apply (reach_add {| buckets := [[1; 0; 0; 0]; [0; 0; 0; 0]]%Z; size := 1; pow := 1 |}
             [2; 1]%Z true (fun _ => 0%nat) Ok); [exact R1|].
    vm_compute. reflexivity. }
  assert (R3 : @reachable sample_hasher
                 {| buckets := [[1; 3; 0; 0]; [2; 0; 0; 0]]%Z; size := 3; pow := 1 |}).
  { apply (reach_add {| buckets := [[1; 0; 0; 0]; [2; 0; 0; 0]]%Z; size := 2; pow := 1 |}
             [3; 0]%Z true (fun _ => 0%nat) Ok); [exact R2|].
    vm_compute. reflexivity. }
  assert (R4 : @reachable sample_hasher
                 {| buckets := [[1; 3; 0; 0]; [0; 0; 0; 0]]%Z; size := 2; pow := 1 |}).
  { apply (reach_delete {| buckets := [[1; 3; 0; 0]; [2; 0; 0; 0]]%Z; size := 3; pow := 1 |}
             [2; 1]%Z true); [exact R3|].
    vm_compute. reflexivity. }
  assert (Hd : @delete sample_hasher
                 {| buckets := [[1; 3; 0; 0]; [0; 0; 0; 0]]%Z; size := 2; pow := 1 |} [1; 0]%Z =
               Some (true, {| buckets := [[0; 3; 0; 0]; [0; 0; 0; 0]]%Z; size := 1; pow := 1 |}))
    by (vm_compute; reflexivity).
  pose proof (@size_counts_occupied_slots sample_hasher _ Hr R4) as Hs.
  split; [exact Hr|]. split; [exact R4|]. split; [exact (proj1 Hs)|]. split; [exact Hd|].
  exact (proj1 (proj2 (proj2 (proj2 Hs))) _ _ Hd).
Defined.

(** C6, counterexample: with zero buckets, [contains], [add] and [delete]
    all panic, on any key. *)
Lemma zero_capacity_panics :
  sample_contains (with_capacity 0) [] = None /\
  sample_add (with_capacity 0) [] true (fun _ => 0%nat) = None /\
  sample_delete (with_capacity 0) [] = None.
Proof.
  repeat split; vm_compute; reflexivity.
Qed.

(** C6, witness of [nonempty_filter_ops_total] for [new 0]. *)
Lemma nonempty_filter_ops_total_witness :
  @fp_zero_replacement sample_hasher <> 0%Z /\
  @reachable sample_hasher (new 0) /\ buckets (new 0) <> [].
Proof.
  assert (Hr : @fp_zero_replacement sample_hasher <> 0%Z) by discriminate.
  split; [exact Hr|].
  apply (proj1 (@nonempty_filter_ops_total sample_hasher Hr)).
  vm_compute. split; [discriminate|reflexivity].
Defined.

(** C7, counterexample: [with_capacity 100] keeps 100 buckets while
    [pow = 2], so the array length is not [2^pow]. *)
Lemma with_capacity_not_rounded :
  length (buckets (with_capacity 100)) = 100 /\
  pow (with_capacity 100) = 2 /\
  length (buckets (with_capacity 100)) <> 2 ^ pow (with_capacity 100).
Proof.
  split; [|split]; vm_compute; [reflexivity | reflexivity | discriminate].
Qed.

(** C7, witness of [with_capacity_layout] at [n = 100]. *)
Lemma with_capacity_layout_witness :
  (Z.of_nat 100 < two64)%Z /\ length (buckets (with_capacity 100)) = 100.
Proof.
  assert (Hn : (Z.of_nat 100 < two64)%Z) by (vm_compute; reflexivity).
  split; [exact Hn|].
  exact (proj1 (with_capacity_layout 100 Hn)).
Defined.

(** C8, witness of [alt_index_involutive] at index 5 with [pow = 3]. *)
Lemma alt_index_involutive_witness :
  (0 <= 5 < 2 ^ Z.of_nat 3)%Z /\
  @get_alt_index sample_hasher 9 (@get_alt_index sample_hasher 9 5 3) 3 = 5%Z.
Proof.
  assert (Hi : (0 <= 5 < 2 ^ Z.of_nat 3)%Z) by (simpl; lia).
  split; [exact Hi|].
  exact (proj1 (proj2 (@alt_index_involutive sample_hasher 9 5 3 Hi))).
Defined.

(** C9, counterexample: for [m = 34587645138205410], [m / 4] lies in
    [(2^52, 2^53]] and [(m / 4) / 2^53] exceeds [0.96] exactly, yet the
    binary64 test does not double and [gen_size m] is [2^53]. *)
Lemma gen_size_float_rounding :
  let m := 34587645138205410%Z in
  (2 ^ 52 < m / 4 <= 2 ^ 53)%Z /\
  (m * 100 > 96 * (4 * 2 ^ 53))%Z /\
  gen_size m = (2 ^ 53)%Z.
Proof.
  intros m. split; [split|split]; vm_compute; first [reflexivity | discriminate].
Qed.

(** ** Further properties of the code *)

Section MoreHelpers.
Context {H : Hasher}.

Lemma lookup_repeat_lt {A} (x : A) (n i : nat) : i < n -> repeat x n !! i = Some x.
Proof.
  revert i. induction n as [|n IH]; intros i Hi; [lia|].
  destruct i as [|i]; [reflexivity|]. simpl. apply IH. lia.
Qed.

Lemma filter_eta (cf : CuckooFilter) :
  {| buckets := buckets cf; size := size cf; pow := pow cf |} = cf.
Proof. destruct cf; reflexivity. Qed.

(** Applying the alternate-index rule twice to an index of [pow] bits. *)
Lemma alt_index_twice (f i : Z) (p : nat) :
  (0 <= i < 2 ^ Z.of_nat p)%Z -> get_alt_index f (get_alt_index f i p) p = i.
Proof.
  intros Hj. unfold get_alt_index.
  rewrite <- (Z.mod_small i (2 ^ Z.of_nat p)) at 2 by exact Hj.
  rewrite <- Z.land_ones by lia.
  apply Z.bits_inj'. intros n Hn.
  repeat first [rewrite Z.land_spec | rewrite Z.lxor_spec].
  destruct (Z.testbit i n), (Z.testbit (hash_fp f) n), (Z.testbit (Z.ones (Z.of_nat p)) n);
    reflexivity.
Qed.

(** The alternate of either candidate bucket of a key is the other one. *)
Lemma alt_of_candidate (item : list Z) (p : nat) (i : Z) :
  let finger := get_indices_and_fingerprint item p in
  i = i1 finger \/ i = i2 finger ->
  get_alt_index (fp finger) i p = i2 finger /\ i = i1 finger \/
  get_alt_index (fp finger) i p = i1 finger /\ i = i2 finger.
Proof.
  intros finger [->| ->]; [left; auto|right; split; [|reflexivity]].
  apply alt_index_twice. apply mask_range.
Qed.

Lemma insert_ok_perm (cf : CuckooFilter) (f i : Z) (cf' : CuckooFilter) :
  insert cf f i = Some (true, cf') ->
  Permutation (0%Z :: slots cf') (f :: slots cf) /\ size cf' = S (size cf) /\ pow cf' = pow cf.
Proof.
  intros Hi. destruct (insert_spec _ _ _ _ _ Hi)
    as (_ & b & Hb & [(_ & pre & post & -> & ->)|(? & _)]); [|discriminate].
  split; [|split; reflexivity].
  unfold slots. simpl. apply (perm_concat_insert _ _ _ _ _ _ Hb).
  rewrite <- !Permutation_middle. apply perm_swap.
Qed.

Lemma reinsert_loop_ok_perm (fuel k : nat) (rng : nat -> nat) (f i : Z) (cf cf' : CuckooFilter) :
  reinsert_loop fuel k rng f i cf = Some (Ok, cf') ->
  Permutation (0%Z :: slots cf') (f :: slots cf) /\ size cf' = S (size cf).
Proof.
  revert k f i cf. induction fuel as [|fuel IH]; intros k f i cf Hl; simpl in Hl;
    [discriminate|].
  destruct (swap_slot cf i (rng k) f) as [[old cf1]|] eqn:Hs; [|discriminate].
  pose proof (swap_slot_perm _ _ _ _ _ _ Hs) as Hp1.
  destruct (swap_slot_spec _ _ _ _ _ _ Hs) as (b0 & Hb0 & Hj0 & Hcf1).
  assert (Hsz1 : size cf1 = size cf) by (rewrite Hcf1; reflexivity).
  destruct (insert cf1 old (get_alt_index old i (pow cf1))) as [[[|] cf2]|] eqn:Hi;
    [| |discriminate].
  - injection Hl as <-. destruct (insert_ok_perm _ _ _ _ Hi) as (Hp2 & Hs2 & _).
    split; [|lia]. etransitivity; [exact Hp2|]. exact Hp1.
  - destruct (insert_spec _ _ _ _ _ Hi) as (_ & b & _ & [(? & _)|(_ & _ & ->)]);
      [discriminate|].
    destruct (IH _ _ _ _ Hl) as [Hp Hs']. split; [|lia].
    etransitivity; [exact Hp|]. exact Hp1.
Qed.

(** The eviction loop between the two candidate buckets of a key, both
    filled with its fingerprint, changes nothing and gives up. *)
Lemma reinsert_loop_own_full (fuel k : nat) (rng : nat -> nat) (item : list Z)
    (cf : CuckooFilter) (i : Z) :
  let finger := get_indices_and_fingerprint item (pow cf) in
  fp finger <> 0%Z -> (forall n, rng n < BUCKET_SIZE) ->
  buckets cf !! Z.to_nat (i1 finger) = Some (repeat (fp finger) BUCKET_SIZE) ->
  buckets cf !! Z.to_nat (i2 finger) = Some (repeat (fp finger) BUCKET_SIZE) ->
  i = i1 finger \/ i = i2 finger ->
  reinsert_loop fuel k rng (fp finger) i cf = Some (Err NotEnoughSpace, cf).
Proof.
  intros finger Hf Hrng Hb1 Hb2. revert k i.
  induction fuel as [|fuel IH]; intros k i Hi; [reflexivity|].
  pose proof (alt_of_candidate item (pow cf) i Hi) as Halt. fold finger in Halt.
  remember (fp finger) as f eqn:Ef.
  assert (Hbi : buckets cf !! Z.to_nat i = Some (repeat f BUCKET_SIZE))
    by (destruct Hi as [-> | ->]; assumption).
  cbn [reinsert_loop]. unfold swap_slot. rewrite Hbi.
  rewrite (lookup_repeat_lt f BUCKET_SIZE (rng k) (Hrng k)).
  rewrite (list_insert_id (repeat f BUCKET_SIZE) (rng k) f)
    by (apply lookup_repeat_lt; apply Hrng).
  rewrite (list_insert_id (buckets cf) (Z.to_nat i) _ Hbi).
  rewrite filter_eta.
  assert (Hfull : forall j, buckets cf !! Z.to_nat j = Some (repeat f BUCKET_SIZE) ->
                    insert cf f j = Some (false, cf)).
  { intros j Hj. unfold insert.
    destruct (Nat.eqb_spec (length (buckets cf)) 0) as [E|_].
    { apply lookup_lt_Some in Hj. lia. }
    rewrite Nat.mod_small by (eapply lookup_lt_Some; exact Hj).
    rewrite Hj. simpl. destruct (Z.eqb_spec f 0); [contradiction|reflexivity]. }
  destruct Halt as [[Halt _]|[Halt _]]; rewrite Halt.
  - rewrite (Hfull _ Hb2). apply IH. right. reflexivity.
  - rewrite (Hfull _ Hb1). apply IH. left. reflexivity.
Qed.

Lemma gen_size_pow2 (m : Z) :
  (0 <= m < two64)%Z -> exists e, e <= 63 /\ gen_size m = (2 ^ Z.of_nat e)%Z.
Proof.
  intros Hm. pose proof (gen_size_range m Hm) as Hr.
  assert (Hl : (0 <= Z.log2_up (Z.max 1 (m / 4)))%Z) by apply Z.log2_up_nonneg.
  destruct (gen_size_cases m) as [E|E]; unfold upper_power2 in E.
  - exists (Z.to_nat (Z.log2_up (Z.max 1 (m / 4)))). rewrite Z2Nat.id by exact Hl.
    split; [|exact E].
    destruct (Nat.le_gt_cases (Z.to_nat (Z.log2_up (Z.max 1 (m / 4)))) 63) as [?|Hgt]; [assumption|].
    assert (2 ^ 64 <= 2 ^ Z.log2_up (Z.max 1 (m / 4)))%Z by (apply Z.pow_le_mono_r; lia).
    lia.
  - exists (S (Z.to_nat (Z.log2_up (Z.max 1 (m / 4))))).
    rewrite Nat2Z.inj_succ, Z2Nat.id by exact Hl. rewrite Z.pow_succ_r by exact Hl.
    split; [|exact E].
    destruct (Nat.le_gt_cases (S (Z.to_nat (Z.log2_up (Z.max 1 (m / 4))))) 63) as [?|Hgt];
      [assumption|].
    assert (2 ^ 63 <= 2 ^ Z.log2_up (Z.max 1 (m / 4)))%Z by (apply Z.pow_le_mono_r; lia).
    lia.
Qed.

(** [gen_size] doubles when [m] exceeds [4 * nb] by 1, 2 or 3 keys. *)
Lemma gen_size_just_above :
  forallb (fun k => forallb (fun r => Z.eqb (gen_size (4 * 2 ^ Z.of_nat k + r))
                                             (2 ^ (Z.of_nat k + 1)))
                            [1; 2; 3]%Z) (seq 0 62) = true.
Proof. vm_compute. reflexivity. Qed.

Lemma gen_size_capacity (m : Z) : (0 <= m < two64)%Z -> (m <= 4 * gen_size m)%Z.
Proof.
  intros Hm. unfold two64 in Hm.
  set (x := Z.max 1 (m / 4)).
  assert (Hx : (x <= upper_power2 x)%Z) by (apply upper_power2_ge; lia).
  assert (Hd := Z.div_mod m 4 ltac:(lia)). assert (Hmod := Z.mod_pos_bound m 4 ltac:(lia)).
  destruct (Z.le_gt_cases m (4 * upper_power2 x)) as [Hle|Hgt].
  { destruct (gen_size_cases m) as [-> | ->]; fold x; lia. }
  assert (Hnb : (upper_power2 x = m / 4)%Z) by lia.
  set (L := Z.log2_up x) in *.
  assert (HL : (0 <= L)%Z) by apply Z.log2_up_nonneg.
  assert (HL61 : (L <= 61)%Z).
  { destruct (Z.le_gt_cases L 61) as [?|HL']; [assumption|].
    assert (2 ^ 62 <= 2 ^ L)%Z by (apply Z.pow_le_mono_r; lia).
    unfold upper_power2 in Hnb. fold L in Hnb.
    assert (m / 4 < 2 ^ 62)%Z by (apply Z.div_lt_upper_bound; lia). lia. }
  pose proof gen_size_just_above as Hall.
  rewrite forallb_forall in Hall.
  specialize (Hall (Z.to_nat L) ltac:(apply in_seq; lia)).
  rewrite forallb_forall in Hall.
  specialize (Hall (m mod 4)%Z).
  rewrite Z2Nat.id in Hall by exact HL.
  assert (Hm' : m = (4 * 2 ^ L + m mod 4)%Z) by (unfold upper_power2 in Hnb; fold L in Hnb; lia).
  assert (Hin : In (m mod 4)%Z [1; 2; 3]%Z).
  { assert (m mod 4 <> 0)%Z by (unfold upper_power2 in Hnb; fold L in Hnb; lia).
    simpl. lia. }
  specialize (Hall Hin). apply Z.eqb_eq in Hall. rewrite <- Hm' in Hall.
  rewrite Hall, Z.pow_add_r by lia. unfold upper_power2 in Hnb. fold L in Hnb. lia.
Qed.

End MoreHelpers.

(** ** Where [add] puts fingerprints *)

Section Placement.
Context {H : Hasher}.

Lemma placed_at_mono (keys keys' : list (list Z)) (p : nat) (i v : Z) :
  incl keys keys' -> placed_at keys p i v -> placed_at keys' p i v.
Proof. intros Hincl (k & Hk & Hv & Hi). exists k. auto. Qed.

Lemma placed_mono (keys keys' : list (list Z)) (cf : CuckooFilter) :
  incl keys keys' -> placed keys cf -> placed keys' cf.
Proof. intros Hincl Hp n s v Hs Hv. exact (placed_at_mono _ _ _ _ _ Hincl (Hp n s v Hs Hv)). Qed.

Lemma placed_at_range (keys : list (list Z)) (p : nat) (i v : Z) :
  placed_at keys p i v -> (0 <= i < 2 ^ Z.of_nat p)%Z.
Proof. intros (k & _ & _ & [-> | ->]); apply mask_range. Qed.

Lemma placed_at_alt (keys : list (list Z)) (p : nat) (i v : Z) :
  placed_at keys p i v -> placed_at keys p (get_alt_index v i p) v.
Proof.
  intros (k & Hk & -> & Hi). exists k. split; [exact Hk|]. split; [reflexivity|].
  change (fingerprint k) with (fp (get_indices_and_fingerprint k p)).
  destruct (alt_of_candidate k p i Hi) as [[-> _]|[-> _]]; auto.
Qed.

Lemma middle_lookup_cases (pre post : list Z) (x y v : Z) (s : nat) :
  (pre ++ y :: post) !! s = Some v -> (pre ++ x :: post) !! s = Some v \/ v = y.
Proof.
  intros Hv. destruct (lt_eq_lt_dec s (length pre)) as [[Hlt| ->]|Hgt].
  - rewrite lookup_app_l in Hv |- * by exact Hlt. left. exact Hv.
  - rewrite list_lookup_middle in Hv by reflexivity. injection Hv as <-. right. reflexivity.
  - rewrite lookup_app_r in Hv |- * by lia.
    destruct (s - length pre) as [|d] eqn:Hd; [lia|]. left. exact Hv.
Qed.

Lemma repeat_lookup_inv {A} (x y : A) (n i : nat) : repeat x n !! i = Some y -> y = x.
Proof.
  revert i. induction n as [|n IH]; intros i Hi; [discriminate|].
  destruct i as [|i]; simpl in Hi; [congruence|]. exact (IH i Hi).
Qed.

(** Writing bucket [n] keeps the placement when every non-zero slot of
    the new bucket is an old slot or is placed at [n]. *)
Lemma placed_write (keys : list (list Z)) (cf : CuckooFilter) (n : nat) (b b' : list Z)
    (sz : nat) :
  placed keys cf -> buckets cf !! n = Some b ->
  (forall s v, b' !! s = Some v -> v <> 0%Z ->
     b !! s = Some v \/ placed_at keys (pow cf) (Z.of_nat n) v) ->
  placed keys {| buckets := <[n := b']> (buckets cf); size := sz; pow := pow cf |}.
Proof.
  intros Hp Hb Hb' m s v Hv Hv0. unfold slot_at in Hv. simpl in Hv |- *.
  destruct (decide (m = n)) as [->|Hmn].
  - rewrite list_lookup_insert_eq in Hv by (eapply lookup_lt_Some; exact Hb).
    destruct (Hb' s v Hv Hv0) as [Hold|Hgood]; [|exact Hgood].
    apply (Hp n s v); [unfold slot_at; rewrite Hb; exact Hold|exact Hv0].
  - rewrite list_lookup_insert_ne in Hv by congruence. exact (Hp m s v Hv Hv0).
Qed.

Lemma insert_wf (cf : CuckooFilter) (f i : Z) (ok : bool) (cf' : CuckooFilter) :
  wf cf -> insert cf f i = Some (ok, cf') -> wf cf' /\ pow cf' = pow cf.
Proof.
  intros Hwf Hi.
  destruct (insert_spec _ _ _ _ _ Hi)
    as (_ & b & Hb & [(_ & pre & post & -> & ->)|(_ & _ & ->)]); [|auto].
  split; [|reflexivity].
  apply (wf_replace_bucket _ _ _ _ _ Hwf Hb). rewrite !length_app. reflexivity.
Qed.

Lemma placed_insert (keys : list (list Z)) (cf : CuckooFilter) (f i : Z) (ok : bool)
    (cf' : CuckooFilter) :
  placed keys cf -> wf cf -> (f = 0%Z \/ placed_at keys (pow cf) i f) ->
  insert cf f i = Some (ok, cf') -> placed keys cf'.
Proof.
  intros Hp Hwf Hf Hi.
  destruct (insert_spec _ _ _ _ _ Hi)
    as (Hne & b & Hb & [(_ & pre & post & -> & ->)|(_ & _ & ->)]); [|exact Hp].
  apply (placed_write _ _ _ _ _ _ Hp Hb). intros s v Hv Hv0.
  destruct (middle_lookup_cases pre post 0%Z f v s Hv) as [Hold| ->]; [left; exact Hold|right].
  destruct Hf as [->|Hf]; [contradiction|].
  pose proof (placed_at_range _ _ _ _ Hf) as Hr.
  destruct Hwf as [_ [Hnil|Hpow]]; [contradiction|].
  rewrite Nat.mod_small by lia. rewrite Z2Nat.id by lia. exact Hf.
Qed.

Lemma placed_swap (keys : list (list Z)) (cf : CuckooFilter) (i : Z) (j : nat) (f old : Z)
    (cf1 : CuckooFilter) :
  placed keys cf -> wf cf -> (0 <= i)%Z -> (f = 0%Z \/ placed_at keys (pow cf) i f) ->
  swap_slot cf i j f = Some (old, cf1) ->
  placed keys cf1 /\ wf cf1 /\ pow cf1 = pow cf /\
  (old = 0%Z \/ placed_at keys (pow cf) i old).
Proof.
  intros Hp Hwf Hi Hf Hs. destruct (swap_slot_spec _ _ _ _ _ _ Hs) as (b & Hb & Hj & ->).
  split; [|split; [|split; [reflexivity|]]].
  - apply (placed_write _ _ _ _ _ _ Hp Hb). intros s v Hv Hv0.
    destruct (decide (s = j)) as [->|Hsj].
    + rewrite list_lookup_insert_eq in Hv by (eapply lookup_lt_Some; exact Hj).
      injection Hv as <-. right. destruct Hf as [->|Hf]; [contradiction|].
      rewrite Z2Nat.id by exact Hi. exact Hf.
    + rewrite list_lookup_insert_ne in Hv by congruence. left. exact Hv.
  - apply (wf_replace_bucket _ _ _ _ _ Hwf Hb). apply length_insert.
  - destruct (Z.eq_dec old 0%Z) as [->|Hold]; [left; reflexivity|right].
    rewrite <- (Z2Nat.id i) by exact Hi.
    apply (Hp (Z.to_nat i) j old); [unfold slot_at; rewrite Hb; exact Hj|exact Hold].
Qed.

Lemma placed_reinsert_loop (keys : list (list Z)) (fuel k : nat) (rng : nat -> nat) (f i : Z)
    (cf : CuckooFilter) (r : CResult) (cf' : CuckooFilter) :
  placed keys cf -> wf cf -> (0 <= i)%Z -> (f = 0%Z \/ placed_at keys (pow cf) i f) ->
  reinsert_loop fuel k rng f i cf = Some (r, cf') ->
  placed keys cf' /\ wf cf' /\ pow cf' = pow cf.
Proof.
  revert k f i cf. induction fuel as [|fuel IH]; intros k f i cf Hp Hwf Hi Hf Hl;
    cbn [reinsert_loop] in Hl.
  { injection Hl as _ <-. auto. }
  destruct (swap_slot cf i (rng k) f) as [[old cf1]|] eqn:Hs; [|discriminate].
  destruct (placed_swap _ _ _ _ _ _ _ Hp Hwf Hi Hf Hs) as (Hp1 & Hwf1 & Hpow1 & Hold).
  assert (Hold' : old = 0%Z \/ placed_at keys (pow cf1) (get_alt_index old i (pow cf1)) old).
  { rewrite Hpow1. destruct Hold as [->|Hold]; [left; reflexivity|right].
    apply placed_at_alt. exact Hold. }
  destruct (insert cf1 old (get_alt_index old i (pow cf1))) as [[ok cf2]|] eqn:Hins;
    [|discriminate].
  pose proof (placed_insert _ _ _ _ _ _ Hp1 Hwf1 Hold' Hins) as Hp2.
  destruct (insert_wf _ _ _ _ _ Hwf1 Hins) as [Hwf2 Hpow2].
  destruct ok.
  - injection Hl as _ <-. split; [exact Hp2|]. split; [exact Hwf2|]. congruence.
  - destruct (insert_spec _ _ _ _ _ Hins) as (_ & b & _ & [(? & _)|(_ & _ & ->)]);
      [discriminate|].
    destruct (IH _ _ _ _ Hp1 Hwf1 ltac:(apply mask_range) Hold' Hl) as (Hp' & Hwf' & Hpow').
    split; [exact Hp'|]. split; [exact Hwf'|]. congruence.
Qed.

Lemma placed_add (keys : list (list Z)) (cf : CuckooFilter) (item : list Z) (coin : bool)
    (rng : nat -> nat) (r : CResult) (cf' : CuckooFilter) :
  placed keys cf -> wf cf -> add cf item coin rng = Some (r, cf') ->
  placed (item :: keys) cf' /\ wf cf' /\ pow cf' = pow cf.
Proof.
  intros Hp Hwf Hadd. unfold add in Hadd.
  apply (placed_mono keys (item :: keys)) in Hp; [|intros x Hx; right; exact Hx].
  assert (Hc1 : placed_at (item :: keys) (pow cf) (i1 (get_indices_and_fingerprint item (pow cf)))
                  (fp (get_indices_and_fingerprint item (pow cf))))
    by (exists item; simpl; auto).
  assert (Hc2 : placed_at (item :: keys) (pow cf) (i2 (get_indices_and_fingerprint item (pow cf)))
                  (fp (get_indices_and_fingerprint item (pow cf))))
    by (exists item; simpl; auto).
  destruct (insert cf _ (i1 (get_indices_and_fingerprint item (pow cf)))) as [[[|] cf1]|] eqn:E1;
    [| |discriminate].
  { injection Hadd as _ <-. split; [exact (placed_insert _ _ _ _ _ _ Hp Hwf (or_intror Hc1) E1)|].
    exact (insert_wf _ _ _ _ _ Hwf E1). }
  destruct (insert_spec _ _ _ _ _ E1) as (_ & b1 & _ & [(? & _)|(_ & _ & ->)]); [discriminate|].
  destruct (insert cf _ (i2 (get_indices_and_fingerprint item (pow cf)))) as [[[|] cf2]|] eqn:E2;
    [| |discriminate].
  { injection Hadd as _ <-. split; [exact (placed_insert _ _ _ _ _ _ Hp Hwf (or_intror Hc2) E2)|].
    exact (insert_wf _ _ _ _ _ Hwf E2). }
  destruct (insert_spec _ _ _ _ _ E2) as (_ & b2 & _ & [(? & _)|(_ & _ & ->)]); [discriminate|].
  unfold reinsert, rand_index in Hadd.
  destruct coin.
  - exact (placed_reinsert_loop _ _ _ _ _ _ _ _ _ Hp Hwf ltac:(apply mask_range) (or_intror Hc1) Hadd).
  - exact (placed_reinsert_loop _ _ _ _ _ _ _ _ _ Hp Hwf ltac:(apply mask_range) (or_intror Hc2) Hadd).
Qed.

Lemma placed_remove (keys : list (list Z)) (cf : CuckooFilter) (f i : Z) (ok : bool)
    (cf' : CuckooFilter) :
  placed keys cf -> wf cf -> remove cf f i = Some (ok, cf') ->
  placed keys cf' /\ wf cf' /\ pow cf' = pow cf.
Proof.
  intros Hp Hwf Hrm.
  destruct (remove_spec _ _ _ _ _ Hrm)
    as (b & Hb & [(_ & pre & post & n & -> & _ & ->)|(_ & _ & ->)]); [|auto].
  split; [|split; [|reflexivity]].
  - apply (placed_write _ _ _ _ _ _ Hp Hb). intros s v Hv Hv0.
    destruct (middle_lookup_cases pre post f 0%Z v s Hv) as [Hold| ->]; [left; exact Hold|].
    contradiction.
  - apply (wf_replace_bucket _ _ _ _ _ Hwf Hb). rewrite !length_app. reflexivity.
Qed.

Lemma placed_run (ops : list Op) (keys : list (list Z)) (cf cf' : CuckooFilter) :
  placed keys cf -> wf cf -> run cf ops = Some cf' -> placed (added_keys ops ++ keys) cf'.
Proof.
  revert keys cf. induction ops as [|op ops IH]; intros keys cf Hp Hwf Hrun; cbn [run] in Hrun.
  - injection Hrun as <-. exact Hp.
  - destruct op as [item coin rng|data|data].
    + destruct (add cf item coin rng) as [[r cf1]|] eqn:Ha; [|discriminate].
      destruct (placed_add _ _ _ _ _ _ _ Hp Hwf Ha) as (Hp1 & Hwf1 & _).
      apply (placed_mono (added_keys ops ++ item :: keys)); [|exact (IH _ _ Hp1 Hwf1 Hrun)].
      intros x. cbn [added_keys flat_map]. rewrite !in_app_iff. simpl. tauto.
    + destruct (delete cf data) as [[ok cf1]|] eqn:Hd; [|discriminate].
      unfold delete in Hd.
      destruct (remove cf _ (i1 (get_indices_and_fingerprint data (pow cf))))
        as [[[|] cf0]|] eqn:E1; [| |discriminate].
      * injection Hd as _ <-. destruct (placed_remove _ _ _ _ _ _ Hp Hwf E1) as (Hp1 & Hwf1 & _).
        exact (IH _ _ Hp1 Hwf1 Hrun).
      * destruct (placed_remove _ _ _ _ _ _ Hp Hwf E1) as (Hp0 & Hwf0 & _).
        destruct (placed_remove _ _ _ _ _ _ Hp0 Hwf0 Hd) as (Hp1 & Hwf1 & _).
        exact (IH _ _ Hp1 Hwf1 Hrun).
    + destruct (contains cf data); [|discriminate]. exact (IH _ _ Hp Hwf Hrun).
Qed.

Lemma placed_with_capacity (n : nat) : placed [] (with_capacity n).
Proof.
  intros m s v Hv Hv0. exfalso. apply Hv0. unfold slot_at in Hv. simpl in Hv.
  destruct (repeat bucket_new n !! m) as [b|] eqn:Hb; [|discriminate].
  apply repeat_lookup_inv in Hb. subst b. exact (repeat_lookup_inv _ _ _ _ Hv).
Qed.

End Placement.

(** ** The debug build of [trailing_zeros] *)

Lemma trailing_zeros_debug_overflow (c : nat) :
  Z.of_nat c = (2 ^ 63)%Z -> trailing_zeros_debug c = None.
Proof.
  intros E. unfold trailing_zeros_debug.
  destruct (Nat.eqb_spec c 0) as [->|_]; [discriminate|]. cbv zeta.
  rewrite E. reflexivity.
Qed.

Lemma trailing_zeros_debug_some (c : nat) :
  (0 < c)%nat -> (Z.of_nat c < two64)%Z -> Z.of_nat c <> (2 ^ 63)%Z ->
  trailing_zeros_debug c = Some (trailing_zeros c).
Proof.
  intros Hc Hlt Hne. unfold trailing_zeros_debug, trailing_zeros.
  destruct (Nat.eqb_spec c 0) as [E|_]; [lia|]. cbv zeta.
  unfold i64_neg_checked, i64_of_u64. unfold two64 in *.
  assert (Hpos : (0 < Z.of_nat c)%Z) by lia.
  destruct (Z.ltb_spec (Z.of_nat c) (2 ^ 63)) as [Hs|Hs].
  - replace (Z.leb (- 2 ^ 63) (Z.of_nat c * -1) && Z.ltb (Z.of_nat c * -1) (2 ^ 63))%bool
      with true.
    + replace (Z.of_nat c * -1)%Z with (- Z.of_nat c)%Z by lia. reflexivity.
    + symmetry. apply andb_true_intro. split; [apply Z.leb_le|apply Z.ltb_lt]; lia.
  - replace (Z.leb (- 2 ^ 63) ((Z.of_nat c - 2 ^ 64) * -1) &&
             Z.ltb ((Z.of_nat c - 2 ^ 64) * -1) (2 ^ 63))%bool with true.
    + replace ((Z.of_nat c - 2 ^ 64) * -1)%Z with (- Z.of_nat c + 1 * 2 ^ 64)%Z by lia.
      rewrite Z.mod_add by lia. reflexivity.
    + symmetry. apply andb_true_intro. split; [apply Z.leb_le|apply Z.ltb_lt]; lia.
Qed.

Section Extras.
Context {H : Hasher}.

Lemma trailing_zeros_low_bits (c : nat) :
  (0 < c)%nat -> (Z.of_nat c < two64)%Z ->
  trailing_zeros c < 64 /\
  Z.testbit (Z.of_nat c) (Z.of_nat (trailing_zeros c)) = true /\
  (forall k, k < trailing_zeros c -> Z.testbit (Z.of_nat c) (Z.of_nat k) = false).
Proof.
  intros Hc Hlt. destruct (trailing_zeros_spec c Hc Hlt) as (q & Hq & E).
  set (t := trailing_zeros c) in *.
  assert (Hpos : (0 < 2 * q + 1)%Z) by lia.
  split; [|split].
  - destruct (Nat.lt_ge_cases t 64) as [?|Hge]; [assumption|].
    assert (2 ^ 64 <= 2 ^ Z.of_nat t)%Z by (apply Z.pow_le_mono_r; lia).
    unfold two64 in Hlt. nia.
  - rewrite E, Z.mul_comm, Z.mul_pow2_bits by lia. rewrite Z.sub_diag.
    apply Z.testbit_odd_0.
  - intros k Hk. rewrite E, Z.mul_comm. apply Z.mul_pow2_bits_low. lia.
Qed.

(** X1: in a debug build, [trailing_zeros c] for [0 < c < 2^64] panics
    exactly at [c = 2^63], where [c as i64 * (-1)] overflows; for every
    other such [c] it returns the release-build value, which is below 64
    and is the number of low zero bits of [c]: that bit of [c] is set and
    every bit below it is clear. *)
Theorem trailing_zeros_debug_spec (c : nat) :
  (0 < c)%nat -> (Z.of_nat c < two64)%Z ->
  ((trailing_zeros_debug c = None) <-> (Z.of_nat c = 2 ^ 63)%Z) /\
  ((Z.of_nat c <> 2 ^ 63)%Z ->
     (trailing_zeros_debug c = Some (trailing_zeros c)) /\ (trailing_zeros c < 64) /\
     (Z.testbit (Z.of_nat c) (Z.of_nat (trailing_zeros c)) = true) /\
     (forall k, k < trailing_zeros c -> Z.testbit (Z.of_nat c) (Z.of_nat k) = false)).
Proof.
  intros Hc Hlt. split.
  - split; [|exact (trailing_zeros_debug_overflow c)].
    intros Hn. destruct (Z.eq_dec (Z.of_nat c) (2 ^ 63)%Z) as [E|Hne]; [exact E|].
    rewrite (trailing_zeros_debug_some c Hc Hlt Hne) in Hn. discriminate.
  - intros Hne. split; [exact (trailing_zeros_debug_some c Hc Hlt Hne)|].
    exact (trailing_zeros_low_bits c Hc Hlt).
Qed.


(** X2: for every [max_num_keys] below [2^64], [CuckooFilter::new] builds
    an empty filter whose bucket array has exactly [2^pow] buckets with
    [pow <= 63], and which has at least [max_num_keys] slots. *)
Theorem new_power_of_two_capacity (m : Z) :
  (0 <= m < two64)%Z ->
  length (buckets (new m)) = 2 ^ pow (new m) /\ pow (new m) <= 63 /\
  size (new m) = 0 /\ occupied (new m) = 0 /\
  (m <= 4 * Z.of_nat (length (buckets (new m))))%Z.
Proof.
  intros Hm. destruct (gen_size_pow2 m Hm) as (e & He & E).
  pose proof (gen_size_capacity m Hm) as Hcap.
  unfold new. rewrite E in Hcap |- *.
  replace (Z.to_nat (2 ^ Z.of_nat e)) with (2 ^ e)
    by (rewrite <- (Nat2Z.id (2 ^ e)), Nat2Z.inj_pow; reflexivity).
  simpl buckets. simpl pow. rewrite repeat_length.
  rewrite trailing_zeros_pow2 by lia.
  split; [reflexivity|]. split; [exact He|]. split; [reflexivity|].
  split; [apply occupied_with_capacity|].
  rewrite Nat2Z.inj_pow. exact Hcap.
Qed.

(** X3: [CuckooFilter::default()] is [new(1 << 24)]: an empty filter of
    [2^23] buckets ([2^25] slots) with [pow = 23]. *)
Theorem default_filter_layout :
  length (buckets default_filter) = 2 ^ 23 /\ pow default_filter = 23 /\
  size default_filter = 0 /\
  Forall (fun b => b = bucket_new) (buckets default_filter).
Proof.
  assert (E : gen_size (2 ^ 24) = (2 ^ 23)%Z) by (vm_compute; reflexivity).
  unfold default_filter, new. rewrite E.
  replace (Z.to_nat (2 ^ 23)) with (2 ^ 23)
    by (rewrite <- (Nat2Z.id (2 ^ 23)), Nat2Z.inj_pow; f_equal).
  unfold with_capacity. cbn [buckets pow size].
  rewrite repeat_length, trailing_zeros_pow2 by lia.
  split; [reflexivity|]. split; [reflexivity|]. split; [reflexivity|].
  apply List.Forall_forall. intros b Hb. apply repeat_spec in Hb. exact Hb.
Qed.

(** X4: [Bucket::insert] writes [finger] into the first zero slot and
    returns [true] when the bucket has a zero slot; otherwise it returns
    [false] and leaves the bucket unchanged. *)
Theorem bucket_insert_first_zero (b : list Z) (f : Z) :
  (In 0%Z b -> exists pre post, b = pre ++ 0%Z :: post /\ ~ In 0%Z pre /\
                 bucket_insert b f = (true, pre ++ f :: post)) /\
  (~ In 0%Z b -> bucket_insert b f = (false, b)).
Proof.
  induction b as [|x b IH]; simpl.
  - split; [tauto|reflexivity].
  - destruct (Z.eqb_spec x 0) as [->|Hx].
    + split; [intros _; exists [], b; simpl; auto|tauto].
    + destruct IH as [IH1 IH2]. split.
      * intros [E|Hin]; [congruence|].
        destruct (IH1 Hin) as (pre & post & -> & Hpre & ->).
        exists (x :: pre), post. simpl. split; [reflexivity|].
        split; [intros [?|?]; auto|reflexivity].
      * intros Hnot. rewrite IH2 by tauto. reflexivity.
Qed.

(** X5: [Bucket::delete] zeroes the first slot equal to [finger] and
    returns [true] when there is one; otherwise it returns [false] and
    leaves the bucket unchanged. *)
Theorem bucket_delete_first_match (b : list Z) (f : Z) :
  (In f b -> exists pre post, b = pre ++ f :: post /\ ~ In f pre /\
               bucket_delete b f = (true, pre ++ 0%Z :: post)) /\
  (~ In f b -> bucket_delete b f = (false, b)).
Proof.
  induction b as [|x b IH]; simpl.
  - split; [tauto|reflexivity].
  - destruct (Z.eqb_spec x f) as [->|Hx].
    + split; [intros _; exists [], b; simpl; auto|tauto].
    + destruct IH as [IH1 IH2]. split.
      * intros [E|Hin]; [congruence|].
        destruct (IH1 Hin) as (pre & post & -> & Hpre & ->).
        exists (x :: pre), post. simpl. split; [reflexivity|].
        split; [intros [?|?]; auto|reflexivity].
      * intros Hnot. rewrite IH2 by tauto. reflexivity.
Qed.

(** X6: [Bucket::get_fingerprint_index] returns [Some i] exactly when slot
    [i] holds [finger] and no earlier slot does, and [None] exactly when no
    slot holds [finger]. *)
Theorem get_fingerprint_index_first (b : list Z) (f : Z) (i : nat) :
  (get_fingerprint_index b f = Some i <->
     b !! i = Some f /\ forall j, j < i -> b !! j <> Some f) /\
  (get_fingerprint_index b f = None <-> ~ In f b).
Proof.
  revert i. induction b as [|x b IH]; intros i; simpl.
  - split; [split; [discriminate|intros [? _]; discriminate]|tauto].
  - destruct (Z.eqb_spec x f) as [->|Hx].
    + split; [|split; [discriminate|tauto]].
      split.
      * intros E. injection E as <-. split; [reflexivity|intros j Hj; lia].
      * intros [Hi Hlt]. destruct i as [|i]; [reflexivity|].
        exfalso. apply (Hlt 0); [lia|reflexivity].
    + split.
      * destruct i as [|i].
        -- split; [destruct (get_fingerprint_index b f); discriminate|].
           intros [E _]. simpl in E. congruence.
        -- destruct (IH i) as [[IHa IHb] _]. split.
           ++ intros E. destruct (get_fingerprint_index b f) as [n|] eqn:En; [|discriminate].
              simpl in E. injection E as ->.
              destruct (IHa eq_refl) as [Hs Hlt]. split; [exact Hs|].
              intros [|j] Hj; simpl; [congruence|]. apply Hlt. lia.
           ++ intros [Hs Hlt]. rewrite IHb; [reflexivity|].
              split; [exact Hs|]. intros j Hj. apply (Hlt (S j)). lia.
      * destruct (IH 0) as [_ [IHc IHd]].
        destruct (get_fingerprint_index b f); simpl.
        -- split; [discriminate|]. intros Hn. exfalso. apply Hn. right.
           destruct (proj1 (proj1 (IH n)) eq_refl) as [Hs _].
           apply list_elem_of_In. eapply list_elem_of_lookup_2. exact Hs.
        -- split; [intros _ [?|Hin]; [congruence|]; apply IHc; auto|reflexivity].
Qed.

(** X7: [Bucket::reset] zeroes every slot: on a bucket of [BUCKET_SIZE]
    slots it gives [Bucket::new()], and afterwards no non-zero fingerprint
    is found in it. *)
Theorem bucket_reset_clears (b : list Z) :
  bucket_reset b = repeat 0%Z (length b) /\
  (length b = BUCKET_SIZE -> bucket_reset b = bucket_new) /\
  (forall f, f <> 0%Z -> get_fingerprint_index (bucket_reset b) f = None).
Proof.
  assert (E : bucket_reset b = repeat 0%Z (length b)).
  { unfold bucket_reset. induction b as [|x b IH]; simpl; [reflexivity|]. f_equal. exact IH. }
  split; [exact E|]. split; [intros Hl; rewrite E, Hl; reflexivity|].
  intros f Hf. rewrite E. clear E. induction (length b) as [|n IH]; simpl; [reflexivity|].
  rewrite IH. destruct f; [contradiction|reflexivity|reflexivity].
Qed.

(** X8: a zero fingerprint is counted without being stored: on a bucket
    with a zero slot, [Bucket::insert(0)] and [Bucket::delete(0)] return
    [true] and change nothing, so [CuckooFilter::insert] of [0] raises
    [size] by one and [CuckooFilter::remove] of [0] lowers it by one, the
    buckets unchanged. *)
Theorem zero_fingerprint_only_changes_size (cf : CuckooFilter) (i : Z) (b : list Z) :
  buckets cf !! Z.to_nat i = Some b -> In 0%Z b ->
  bucket_insert b 0 = (true, b) /\ bucket_delete b 0 = (true, b) /\
  insert cf 0 i = Some (true, {| buckets := buckets cf; size := S (size cf); pow := pow cf |}) /\
  (forall n, size cf = S n ->
     remove cf 0 i = Some (true, {| buckets := buckets cf; size := n; pow := pow cf |})).
Proof.
  intros Hb Hin.
  assert (Hbi : bucket_insert b 0 = (true, b)).
  { destruct (bucket_insert_spec b 0) as [(pre & post & -> & ->)|[Hall _]]; [reflexivity|].
    rewrite List.Forall_forall in Hall. exfalso. exact (Hall _ Hin eq_refl). }
  assert (Hbd : bucket_delete b 0 = (true, b)).
  { destruct (bucket_delete_spec b 0) as [(pre & post & -> & ->)|[Hn _]]; [reflexivity|].
    contradiction. }
  split; [exact Hbi|]. split; [exact Hbd|]. split.
  - unfold insert.
    destruct (Nat.eqb_spec (length (buckets cf)) 0) as [E|_].
    { apply lookup_lt_Some in Hb. lia. }
    rewrite Nat.mod_small by (eapply lookup_lt_Some; exact Hb).
    rewrite Hb, Hbi, list_insert_id by exact Hb. reflexivity.
  - intros n Hs. unfold remove. rewrite Hb, Hbd, Hs, list_insert_id by exact Hb. reflexivity.
Qed.

(** X9: a successful [add] fills exactly one empty slot with the item's
    fingerprint: the slots after the call plus one [0] are a permutation of
    the slots before plus the fingerprint, and [size] grows by one. *)
Theorem add_ok_fills_one_empty_slot (cf : CuckooFilter) (item : list Z) (coin : bool)
    (rng : nat -> nat) (cf' : CuckooFilter) :
  add cf item coin rng = Some (Ok, cf') ->
  Permutation (0%Z :: slots cf') (fingerprint item :: slots cf) /\ size cf' = S (size cf).
Proof.
  intros Hadd. unfold add in Hadd.
  destruct (insert cf _ (i1 (get_indices_and_fingerprint item (pow cf)))) as [[[|] cf1]|] eqn:E1;
    [| |discriminate].
  { injection Hadd as <-. destruct (insert_ok_perm _ _ _ _ E1) as (Hp & Hs & _). auto. }
  destruct (insert_spec _ _ _ _ _ E1) as (_ & b1 & _ & [(? & _)|(_ & _ & ->)]); [discriminate|].
  destruct (insert cf _ (i2 (get_indices_and_fingerprint item (pow cf)))) as [[[|] cf2]|] eqn:E2;
    [| |discriminate].
  { injection Hadd as <-. destruct (insert_ok_perm _ _ _ _ E2) as (Hp & Hs & _). auto. }
  destruct (insert_spec _ _ _ _ _ E2) as (_ & b2 & _ & [(? & _)|(_ & _ & ->)]); [discriminate|].
  unfold reinsert in Hadd. exact (reinsert_loop_ok_perm _ _ _ _ _ _ _ Hadd).
Qed.

(** X10: when both candidate buckets of a key are filled with its own
    (non-zero) fingerprint, [add] gives up with [NotEnoughSpace] after its
    500 evictions and leaves the filter exactly as it was, whatever the
    random draws. *)
Theorem add_on_own_full_buckets (cf : CuckooFilter) (item : list Z) (coin : bool)
    (rng : nat -> nat) :
  let finger := get_indices_and_fingerprint item (pow cf) in
  fp finger <> 0%Z -> (forall n, rng n < BUCKET_SIZE) ->
  buckets cf !! Z.to_nat (i1 finger) = Some (repeat (fp finger) BUCKET_SIZE) ->
  buckets cf !! Z.to_nat (i2 finger) = Some (repeat (fp finger) BUCKET_SIZE) ->
  add cf item coin rng = Some (Err NotEnoughSpace, cf).
Proof.
  intros finger Hf Hrng Hb1 Hb2.
  assert (Hfull : forall j, buckets cf !! Z.to_nat j = Some (repeat (fp finger) BUCKET_SIZE) ->
                    insert cf (fp finger) j = Some (false, cf)).
  { intros j Hj. unfold insert.
    destruct (Nat.eqb_spec (length (buckets cf)) 0) as [E|_].
    { apply lookup_lt_Some in Hj. lia. }
    rewrite Nat.mod_small by (eapply lookup_lt_Some; exact Hj).
    rewrite Hj. remember (fp finger) as f. simpl.
    destruct (Z.eqb_spec f 0); [contradiction|reflexivity]. }
  unfold add. fold finger. rewrite (Hfull _ Hb1), (Hfull _ Hb2).
  unfold reinsert. apply (reinsert_loop_own_full _ _ _ item cf); try assumption.
  unfold rand_index. destruct coin; [left|right]; reflexivity.
Qed.

End Extras.

Section Extras2.
Context {H : Hasher}.

(** X11: starting from [with_capacity(n)], after any sequence of calls to
    [add], [delete] and [contains], every non-zero slot of bucket [n] holds
    the fingerprint of a key passed to [add], and [n] is one of that key's
    two candidate buckets [i1] or [i2]. *)
Theorem run_keeps_fingerprints_in_candidate_buckets (n : nat) (ops : list Op)
    (cf : CuckooFilter) :
  (Z.of_nat n < two64)%Z -> run (with_capacity n) ops = Some cf ->
  placed (added_keys ops) cf.
Proof.
  intros Hn Hrun.
  pose proof (placed_run ops [] _ _ (placed_with_capacity n) (with_capacity_wf n Hn) Hrun) as Hp.
  rewrite app_nil_r in Hp. exact Hp.
Qed.

End Extras2.

(** ** The example and the unit tests *)

Section ProgramHelpers.
Context {H : Hasher}.

(** [CuckooFilter::insert] at an index that addresses bucket [b]. *)
Lemma insert_at (cf : CuckooFilter) (f i : Z) (b : list Z) :
  buckets cf !! Z.to_nat i = Some b ->
  insert cf f i =
    if fst (bucket_insert b f)
    then Some (true, {| buckets := <[Z.to_nat i := snd (bucket_insert b f)]> (buckets cf);
                        size := S (size cf); pow := pow cf |})
    else Some (false, cf).
Proof.
  intros Hb. unfold insert.
  destruct (Nat.eqb_spec (length (buckets cf)) 0) as [E|_].
  { apply lookup_lt_Some in Hb. lia. }
  rewrite Nat.mod_small by (eapply lookup_lt_Some; exact Hb).
  rewrite Hb. destruct (bucket_insert b f) as [[|] b']; reflexivity.
Qed.

Lemma remove_at (cf : CuckooFilter) (f i : Z) (b : list Z) :
  buckets cf !! Z.to_nat i = Some b ->
  remove cf f i =
    if fst (bucket_delete b f)
    then match size cf with
         | O => None
         | S n => Some (true, {| buckets := <[Z.to_nat i := snd (bucket_delete b f)]> (buckets cf);
                                 size := n; pow := pow cf |})
         end
    else Some (false, cf).
Proof.
  intros Hb. unfold remove. rewrite Hb. destruct (bucket_delete b f) as [[|] b']; reflexivity.
Qed.

Lemma bucket_insert_fst (b : list Z) (f : Z) : fst (bucket_insert b f) = true <-> In 0%Z b.
Proof.
  destruct (bucket_insert_spec b f) as [(pre & post & -> & ->)|[Hall ->]]; simpl.
  - split; [intros _; apply in_app_iff; right; left; reflexivity|reflexivity].
  - split; [discriminate|]. intros Hin. rewrite List.Forall_forall in Hall.
    exfalso. exact (Hall _ Hin eq_refl).
Qed.

(** The steps of [main] on a filter whose bucket [i1] of [b"test"] is
    empty and whose [size] is [0]. *)
Lemma example_steps_empty_bucket (cf : CuckooFilter) (coin : bool) (rng : nat -> nat) :
  let finger := get_indices_and_fingerprint test_key (pow cf) in
  buckets cf !! Z.to_nat (i1 finger) = Some bucket_new -> size cf = 0 ->
  example_steps cf coin rng = if Z.eqb (fp finger) 0 then None else Some tt.
Proof.
  intros finger Hb Hs.
  pose proof (lookup_lt_Some _ _ _ Hb) as Hlt.
  set (cf1 := {| buckets := <[Z.to_nat (i1 finger) := [fp finger; 0; 0; 0]%Z]> (buckets cf);
                 size := 1; pow := pow cf |}).
  set (cf2 := {| buckets := <[Z.to_nat (i1 finger) := [0; 0; 0; 0]%Z]>
                              (<[Z.to_nat (i1 finger) := [fp finger; 0; 0; 0]%Z]> (buckets cf));
                 size := 0; pow := pow cf |}).
  assert (Hadd : add cf test_key coin rng = Some (Ok, cf1)).
  { unfold add. fold finger. rewrite (insert_at _ _ _ _ Hb), Hs. reflexivity. }
  assert (Hl1 : buckets cf1 !! Z.to_nat (i1 finger) = Some [fp finger; 0; 0; 0]%Z).
  { unfold cf1. cbn [buckets]. apply list_lookup_insert_eq. exact Hlt. }
  assert (Hl2 : buckets cf2 !! Z.to_nat (i1 finger) = Some [0; 0; 0; 0]%Z).
  { unfold cf2. cbn [buckets]. apply list_lookup_insert_eq. rewrite length_insert. exact Hlt. }
  assert (Hc1 : contains cf1 test_key = Some true).
  { unfold contains. change (pow cf1) with (pow cf). fold finger. rewrite Hl1.
    cbn [get_fingerprint_index]. rewrite Z.eqb_refl. reflexivity. }
  assert (Hd : delete cf1 test_key = Some (true, cf2)).
  { unfold delete. change (pow cf1) with (pow cf). fold finger.
    rewrite (remove_at _ _ _ _ Hl1). cbn [bucket_delete fst snd]. rewrite Z.eqb_refl.
    reflexivity. }
  unfold example_steps. rewrite Hadd. cbn [size Nat.eqb negb cf1]. rewrite Hc1, Hd.
  cbn [size Nat.eqb negb cf2].
  unfold contains. change (pow cf2) with (pow cf). fold finger. rewrite Hl2.
  cbn [get_fingerprint_index].
  destruct (Z.eqb_spec (fp finger) 0) as [E|E].
  - rewrite E. reflexivity.
  - rewrite (proj2 (Z.eqb_neq 0 (fp finger))) by congruence. reflexivity.
Qed.

(** [CuckooFilter::add] once the two candidate buckets are known. *)
Lemma add_at (cf : CuckooFilter) (item : list Z) (coin : bool) (rng : nat -> nat)
    (b1 b2 : list Z) :
  let finger := get_indices_and_fingerprint item (pow cf) in
  buckets cf !! Z.to_nat (i1 finger) = Some b1 ->
  buckets cf !! Z.to_nat (i2 finger) = Some b2 ->
  add cf item coin rng =
    if fst (bucket_insert b1 (fp finger))
    then Some (Ok, {| buckets := <[Z.to_nat (i1 finger) := snd (bucket_insert b1 (fp finger))]>
                                   (buckets cf);
                      size := S (size cf); pow := pow cf |})
    else if fst (bucket_insert b2 (fp finger))
    then Some (Ok, {| buckets := <[Z.to_nat (i2 finger) := snd (bucket_insert b2 (fp finger))]>
                                   (buckets cf);
                      size := S (size cf); pow := pow cf |})
    else reinsert rng (fp finger) (rand_index coin (i1 finger) (i2 finger)) cf.
Proof.
  intros finger Hb1 Hb2. unfold add. fold finger. rewrite (insert_at _ _ _ _ Hb1).
  destruct (fst (bucket_insert b1 (fp finger))); [reflexivity|].
  rewrite (insert_at _ _ _ _ Hb2). destruct (fst (bucket_insert b2 (fp finger))); reflexivity.
Qed.

Lemma bucket_insert_fill (f : Z) (k : nat) :
  f <> 0%Z -> k < BUCKET_SIZE ->
  bucket_insert (repeat f k ++ repeat 0%Z (BUCKET_SIZE - k)) f =
    (true, repeat f (S k) ++ repeat 0%Z (BUCKET_SIZE - S k)).
Proof.
  intros Hf Hk. assert (E : Z.eqb f 0 = false) by (apply Z.eqb_neq; exact Hf).
  unfold BUCKET_SIZE in *. destruct k as [|[|[|[|k]]]]; [| | | |lia]; simpl; rewrite ?E; reflexivity.
Qed.

Lemma bucket_insert_own_full (f : Z) :
  f <> 0%Z -> bucket_insert (repeat f BUCKET_SIZE) f = (false, repeat f BUCKET_SIZE).
Proof.
  intros Hf. assert (E : Z.eqb f 0 = false) by (apply Z.eqb_neq; exact Hf).
  simpl. rewrite E. reflexivity.
Qed.

(** One call of the test loop whose [assert!] holds, and one whose [assert!]
    fails. *)
Lemma add_test_key_step (count k : nat) (e : bool) (coins : nat -> bool)
    (rngs : nat -> nat -> nat) (cf : CuckooFilter) (r : CResult) (cf' : CuckooFilter) :
  add cf test_key (coins k) (rngs k) = Some (r, cf') -> is_ok r = e ->
  add_test_key (S count) k e coins rngs cf = add_test_key count (S k) e coins rngs cf'.
Proof. intros Ha <-. cbn [add_test_key]. rewrite Ha, Bool.eqb_reflx. reflexivity. Qed.

Lemma add_test_key_stop (count k : nat) (e : bool) (coins : nat -> bool)
    (rngs : nat -> nat -> nat) (cf : CuckooFilter) (r : CResult) (cf' : CuckooFilter) :
  add cf test_key (coins k) (rngs k) = Some (r, cf') -> is_ok r <> e ->
  add_test_key (S count) k e coins rngs cf = None.
Proof.
  intros Ha Hne. cbn [add_test_key]. rewrite Ha.
  destruct (is_ok r), e; try (exfalso; apply Hne; reflexivity); reflexivity.
Qed.

Lemma add_test_key_0 (k : nat) (e : bool) (coins : nat -> bool) (rngs : nat -> nat -> nat)
    (cf : CuckooFilter) :
  add_test_key 0 k e coins rngs cf = Some cf.
Proof. reflexivity. Qed.


End ProgramHelpers.

(** Rewrites the next call of the test loop with a step proved by [tac]. *)
Ltac add_test_key_next tac :=
  match goal with
  | |- context [add_test_key (S ?n) ?k ?e ?co ?rg ?cf] =>
      erewrite (add_test_key_step n k e co rg cf); [| tac | reflexivity]
  end.

Section Extras3.
Context {H : Hasher}.

(** X12: [add] stores the fingerprint in bucket [i1] when that bucket has a
    zero slot, and otherwise in bucket [i2] when that one has a zero slot;
    in both cases it returns [Ok], writes the first zero slot of that
    bucket, raises [size] by one and touches nothing else. *)
Theorem add_fills_first_free_candidate (cf : CuckooFilter) (item : list Z) (coin : bool)
    (rng : nat -> nat) (b1 b2 : list Z) :
  let finger := get_indices_and_fingerprint item (pow cf) in
  buckets cf !! Z.to_nat (i1 finger) = Some b1 ->
  buckets cf !! Z.to_nat (i2 finger) = Some b2 ->
  (In 0%Z b1 ->
     add cf item coin rng =
       Some (Ok, {| buckets := <[Z.to_nat (i1 finger) := snd (bucket_insert b1 (fp finger))]>
                                 (buckets cf);
                    size := S (size cf); pow := pow cf |})) /\
  (~ In 0%Z b1 -> In 0%Z b2 ->
     add cf item coin rng =
       Some (Ok, {| buckets := <[Z.to_nat (i2 finger) := snd (bucket_insert b2 (fp finger))]>
                                 (buckets cf);
                    size := S (size cf); pow := pow cf |})).
Proof.
  intros finger Hb1 Hb2. unfold add. fold finger. rewrite (insert_at _ _ _ _ Hb1).
  split.
  - intros Hin. rewrite (proj2 (bucket_insert_fst b1 (fp finger)) Hin). reflexivity.
  - intros Hn1 Hin2. destruct (fst (bucket_insert b1 (fp finger))) eqn:E1.
    + apply bucket_insert_fst in E1. contradiction.
    + rewrite (insert_at _ _ _ _ Hb2), (proj2 (bucket_insert_fst b2 (fp finger)) Hin2).
      reflexivity.
Qed.

(** X13: [main] of example/main.rs (add [b"test"] to the default filter,
    check [size() == 1] and [contains], delete it, check [size() == 0] and
    that [contains] is now false) runs to its end, whatever the random
    draws, exactly when the fingerprint of [b"test"] is not [0]. *)
Theorem example_main_succeeds_iff (coin : bool) (rng : nat -> nat) :
  example_main coin rng = Some tt <-> fingerprint test_key <> 0%Z.
Proof.
  unfold example_main, default_filter, new.
  pose proof (gen_size_range (2 ^ 24)) as Hr.
  assert (Hm : (0 <= 2 ^ 24 < two64)%Z) by (unfold two64; lia).
  specialize (Hr Hm).
  assert (Hn0 : 0 < Z.to_nat (gen_size (2 ^ 24))) by lia.
  assert (Hn : (Z.of_nat (Z.to_nat (gen_size (2 ^ 24))) < two64)%Z)
    by (unfold two64; rewrite Z2Nat.id by lia; lia).
  revert Hn0 Hn. generalize (Z.to_nat (gen_size (2 ^ 24))) as n. intros n Hn0 Hn.
  pose proof (with_capacity_wf n Hn) as Hwf.
  assert (Hne : buckets (with_capacity n) <> []) by (destruct n; [lia|discriminate]).
  destruct (indices_lt (with_capacity n) test_key Hwf Hne) as [Hlt _].
  rewrite (example_steps_empty_bucket (with_capacity n) coin rng).
  - cbn [fp get_indices_and_fingerprint].
    destruct (Z.eqb_spec (fingerprint test_key) 0); split; congruence.
  - apply lookup_repeat_lt. cbn [buckets with_capacity] in Hlt.
    rewrite repeat_length in Hlt. exact Hlt.
  - reflexivity.
Qed.

(** X14: the unit test [test_add] (on [new(100)], a filter of 32 buckets
    and [pow = 5]: eight calls [add(b"test")] must succeed, [size()] must be
    8, eight more calls must fail and [size()] must stay 8) passes, whatever
    the random draws, exactly when the fingerprint of [b"test"] is not [0]
    and its two candidate buckets are distinct. *)
Theorem test_add_passes_iff (coins : nat -> bool) (rngs : nat -> nat -> nat) :
  (forall k j, rngs k j < BUCKET_SIZE) ->
  test_add coins rngs = Some tt <->
  fingerprint test_key <> 0%Z /\
  i1 (get_indices_and_fingerprint test_key 5) <> i2 (get_indices_and_fingerprint test_key 5).
Proof.
  intros Hrng.
  assert (E0 : new 100 = {| buckets := repeat bucket_new 32; size := 0; pow := 5 |})
    by (vm_compute; reflexivity).
  unfold test_add. rewrite E0. cbv zeta.
  set (finger := get_indices_and_fingerprint test_key 5).
  change (fingerprint test_key) with (fp finger).
  pose proof (mask_range (hash test_key) 5) as Hr1.
  pose proof (mask_range (Z.lxor (i1 finger) (hash_fp (fp finger))) 5) as Hr2.
  change (Z.land (hash test_key) (Z.ones (Z.of_nat 5))) with (i1 finger) in Hr1.
  change (Z.land (Z.lxor (i1 finger) (hash_fp (fp finger))) (Z.ones (Z.of_nat 5)))
    with (i2 finger) in Hr2.
  change (2 ^ Z.of_nat 5)%Z with 32%Z in Hr1, Hr2.
  assert (Hfin : forall cf, pow cf = 5 -> get_indices_and_fingerprint test_key (pow cf) = finger)
    by (intros cf ->; reflexivity).
  assert (Step : forall cf c r b1 b2, pow cf = 5 ->
    buckets cf !! Z.to_nat (i1 finger) = Some b1 ->
    buckets cf !! Z.to_nat (i2 finger) = Some b2 ->
    add cf test_key c r =
      if fst (bucket_insert b1 (fp finger))
      then Some (Ok, {| buckets := <[Z.to_nat (i1 finger) := snd (bucket_insert b1 (fp finger))]>
                                     (buckets cf);
                        size := S (size cf); pow := pow cf |})
      else if fst (bucket_insert b2 (fp finger))
      then Some (Ok, {| buckets := <[Z.to_nat (i2 finger) := snd (bucket_insert b2 (fp finger))]>
                                     (buckets cf);
                        size := S (size cf); pow := pow cf |})
      else reinsert r (fp finger) (rand_index c (i1 finger) (i2 finger)) cf).
  { intros cf c r b1 b2 Hp Hb1 Hb2. pose proof (add_at cf test_key c r b1 b2) as A.
    cbv zeta in A. rewrite Hfin in A by exact Hp. exact (A Hb1 Hb2). }
  set (j1 := Z.to_nat (i1 finger)) in *. set (j2 := Z.to_nat (i2 finger)) in *.
  assert (Hj1 : j1 < 32) by (unfold j1; lia). assert (Hj2 : j2 < 32) by (unfold j2; lia).
  set (R := repeat bucket_new 32).
  assert (HR : forall j, j < 32 -> R !! j = Some bucket_new)
    by (intros j Hj; apply lookup_repeat_lt; exact Hj).
  assert (HRlen : length R = 32) by apply repeat_length.
  destruct (Z.eq_dec (fp finger) 0%Z) as [Hf0|Hf].
  - (* a zero fingerprint: every [add] succeeds *)
    assert (U : forall s c r, add {| buckets := R; size := s; pow := 5 |} test_key c r =
                              Some (Ok, {| buckets := R; size := S s; pow := 5 |})).
    { intros s c r. rewrite (Step {| buckets := R; size := s; pow := 5 |} c r bucket_new bucket_new eq_refl
        (HR j1 Hj1) (HR j2 Hj2)).
      rewrite Hf0. change (bucket_insert bucket_new 0%Z) with (true, bucket_new).
      cbn [fst snd buckets size pow]. rewrite (list_insert_id R j1 bucket_new (HR j1 Hj1)).
      reflexivity. }
    do 8 add_test_key_next ltac:(apply U).
    rewrite add_test_key_0. cbn [size Nat.eqb negb].
    match goal with
    | |- context [add_test_key (S ?n) ?k ?e ?co ?rg ?cf] =>
        erewrite (add_test_key_stop n k e co rg cf); [| apply U | discriminate]
    end.
    split; [discriminate|]. intros [Hn _]. contradiction.
  - destruct (Z.eq_dec (i1 finger) (i2 finger)) as [Ei|Ei].
    + (* both candidates are the same bucket: the fifth [add] fails *)
      assert (Hj12 : j2 = j1) by (unfold j1, j2; rewrite Ei; reflexivity).
      assert (T1 : forall a s c r, a < BUCKET_SIZE ->
        add {| buckets := <[j1 := repeat (fp finger) a ++ repeat 0%Z (BUCKET_SIZE - a)]> R;
               size := s; pow := 5 |} test_key c r =
        Some (Ok, {| buckets := <[j1 := repeat (fp finger) (S a) ++
                                         repeat 0%Z (BUCKET_SIZE - S a)]> R;
                     size := S s; pow := 5 |})).
      { intros a s c r Ha.
        assert (Hl : (<[j1 := repeat (fp finger) a ++ repeat 0%Z (BUCKET_SIZE - a)]> R) !! j1 =
                     Some (repeat (fp finger) a ++ repeat 0%Z (BUCKET_SIZE - a)))
          by (apply list_lookup_insert_eq; lia).
        assert (Hl2 : (<[j1 := repeat (fp finger) a ++ repeat 0%Z (BUCKET_SIZE - a)]> R) !! j2 =
                      Some (repeat (fp finger) a ++ repeat 0%Z (BUCKET_SIZE - a)))
          by (rewrite Hj12; exact Hl).
        rewrite (Step {| buckets := <[j1 := repeat (fp finger) a ++ repeat 0%Z (BUCKET_SIZE - a)]> R;
                         size := s; pow := 5 |} c r _ _ eq_refl Hl Hl2).
        rewrite (bucket_insert_fill _ _ Hf Ha). cbn [fst snd buckets size pow].
        rewrite list_insert_insert_eq. reflexivity. }
      assert (T3 : forall s c r, (forall n, r n < BUCKET_SIZE) ->
        add {| buckets := <[j1 := repeat (fp finger) 4 ++ repeat 0%Z (BUCKET_SIZE - 4)]> R;
               size := s; pow := 5 |} test_key c r =
        Some (Err NotEnoughSpace,
              {| buckets := <[j1 := repeat (fp finger) 4 ++ repeat 0%Z (BUCKET_SIZE - 4)]> R;
                 size := s; pow := 5 |})).
      { intros s c r Hr.
        set (cf := {| buckets := <[j1 := repeat (fp finger) 4 ++ repeat 0%Z (BUCKET_SIZE - 4)]> R;
                      size := s; pow := 5 |}).
        assert (Hl : buckets cf !! j1 = Some (repeat (fp finger) BUCKET_SIZE))
          by (apply list_lookup_insert_eq; lia).
        assert (Hl2 : buckets cf !! j2 = Some (repeat (fp finger) BUCKET_SIZE))
          by (rewrite Hj12; exact Hl).
        rewrite (Step cf c r _ _ eq_refl Hl Hl2).
        rewrite (bucket_insert_own_full _ Hf). cbn [fst]. unfold reinsert.
        apply (reinsert_loop_own_full _ _ r test_key cf); [exact Hf|exact Hr|exact Hl|exact Hl2|].
        unfold rand_index. destruct c; [left|right]; reflexivity. }
      replace {| buckets := R; size := 0; pow := 5 |}
        with {| buckets := <[j1 := repeat (fp finger) 0 ++ repeat 0%Z (BUCKET_SIZE - 0)]> R;
                size := 0; pow := 5 |}
        by (rewrite (list_insert_id R j1 (repeat (fp finger) 0 ++ repeat 0%Z (BUCKET_SIZE - 0)) (HR j1 Hj1)); reflexivity).
      do 4 add_test_key_next ltac:(apply T1; unfold BUCKET_SIZE; lia).
      match goal with
      | |- context [add_test_key (S ?n) ?k ?e ?co ?rg ?cf] =>
          erewrite (add_test_key_stop n k e co rg cf); [| apply T3; apply Hrng | discriminate]
      end.
      split; [discriminate|]. intros [_ Hn]. contradiction.
    + (* two distinct candidates: eight [add]s fit, the next eight fail *)
      assert (Hj12 : j1 <> j2) by (unfold j1, j2; intros E; apply Ei; apply Z2Nat.inj; lia).
      assert (S1 : forall a s c r, a < BUCKET_SIZE ->
        add {| buckets := <[j2 := repeat (fp finger) 0 ++ repeat 0%Z (BUCKET_SIZE - 0)]>
                            (<[j1 := repeat (fp finger) a ++ repeat 0%Z (BUCKET_SIZE - a)]> R);
               size := s; pow := 5 |} test_key c r =
        Some (Ok, {| buckets := <[j2 := repeat (fp finger) 0 ++ repeat 0%Z (BUCKET_SIZE - 0)]>
                                  (<[j1 := repeat (fp finger) (S a) ++
                                           repeat 0%Z (BUCKET_SIZE - S a)]> R);
                     size := S s; pow := 5 |})).
      { intros a s c r Ha.
        set (cf := {| buckets := <[j2 := repeat (fp finger) 0 ++ repeat 0%Z (BUCKET_SIZE - 0)]>
                            (<[j1 := repeat (fp finger) a ++ repeat 0%Z (BUCKET_SIZE - a)]> R);
                      size := s; pow := 5 |}).
        assert (Hl : buckets cf !! j1 = Some (repeat (fp finger) a ++ repeat 0%Z (BUCKET_SIZE - a))).
        { cbn [buckets cf]. rewrite list_lookup_insert_ne by congruence.
          apply list_lookup_insert_eq. lia. }
        assert (Hl2 : buckets cf !! j2 = Some (repeat (fp finger) 0 ++ repeat 0%Z (BUCKET_SIZE - 0))).
        { cbn [buckets cf]. apply list_lookup_insert_eq. rewrite length_insert. lia. }
        rewrite (Step cf c r _ _ eq_refl Hl Hl2).
        rewrite (bucket_insert_fill _ _ Hf Ha). cbn [fst snd buckets size pow cf].
        rewrite (list_insert_insert_ne _ j1 j2) by exact Hj12.
        rewrite list_insert_insert_eq. reflexivity. }
      assert (S2 : forall b s c r, b < BUCKET_SIZE ->
        add {| buckets := <[j2 := repeat (fp finger) b ++ repeat 0%Z (BUCKET_SIZE - b)]>
                            (<[j1 := repeat (fp finger) 4 ++ repeat 0%Z (BUCKET_SIZE - 4)]> R);
               size := s; pow := 5 |} test_key c r =
        Some (Ok, {| buckets := <[j2 := repeat (fp finger) (S b) ++
                                         repeat 0%Z (BUCKET_SIZE - S b)]>
                                  (<[j1 := repeat (fp finger) 4 ++ repeat 0%Z (BUCKET_SIZE - 4)]> R);
                     size := S s; pow := 5 |})).
      { intros b s c r Hb.
        set (cf := {| buckets := <[j2 := repeat (fp finger) b ++ repeat 0%Z (BUCKET_SIZE - b)]>
                            (<[j1 := repeat (fp finger) 4 ++ repeat 0%Z (BUCKET_SIZE - 4)]> R);
                      size := s; pow := 5 |}).
        assert (Hl : buckets cf !! j1 = Some (repeat (fp finger) BUCKET_SIZE)).
        { cbn [buckets cf]. rewrite list_lookup_insert_ne by congruence.
          apply list_lookup_insert_eq. lia. }
        assert (Hl2 : buckets cf !! j2 = Some (repeat (fp finger) b ++ repeat 0%Z (BUCKET_SIZE - b))).
        { cbn [buckets cf]. apply list_lookup_insert_eq. rewrite length_insert. lia. }
        rewrite (Step cf c r _ _ eq_refl Hl Hl2).
        rewrite (bucket_insert_own_full _ Hf), (bucket_insert_fill _ _ Hf Hb).
        cbn [fst snd buckets size pow cf].
        rewrite list_insert_insert_eq. reflexivity. }
      assert (S3 : forall s c r, (forall n, r n < BUCKET_SIZE) ->
        add {| buckets := <[j2 := repeat (fp finger) 4 ++ repeat 0%Z (BUCKET_SIZE - 4)]>
                            (<[j1 := repeat (fp finger) 4 ++ repeat 0%Z (BUCKET_SIZE - 4)]> R);
               size := s; pow := 5 |} test_key c r =
        Some (Err NotEnoughSpace,
              {| buckets := <[j2 := repeat (fp finger) 4 ++ repeat 0%Z (BUCKET_SIZE - 4)]>
                              (<[j1 := repeat (fp finger) 4 ++ repeat 0%Z (BUCKET_SIZE - 4)]> R);
                 size := s; pow := 5 |})).
      { intros s c r Hr.
        set (cf := {| buckets := <[j2 := repeat (fp finger) 4 ++ repeat 0%Z (BUCKET_SIZE - 4)]>
                            (<[j1 := repeat (fp finger) 4 ++ repeat 0%Z (BUCKET_SIZE - 4)]> R);
                      size := s; pow := 5 |}).
        assert (Hl : buckets cf !! j1 = Some (repeat (fp finger) BUCKET_SIZE)).
        { cbn [buckets cf]. rewrite list_lookup_insert_ne by congruence.
          apply list_lookup_insert_eq. lia. }
        assert (Hl2 : buckets cf !! j2 = Some (repeat (fp finger) BUCKET_SIZE)).
        { cbn [buckets cf]. apply list_lookup_insert_eq. rewrite length_insert. lia. }
        rewrite (Step cf c r _ _ eq_refl Hl Hl2).
        rewrite (bucket_insert_own_full _ Hf). cbn [fst]. unfold reinsert.
        apply (reinsert_loop_own_full _ _ r test_key cf); [exact Hf|exact Hr|exact Hl|exact Hl2|].
        unfold rand_index. destruct c; [left|right]; reflexivity. }
      replace {| buckets := R; size := 0; pow := 5 |}
        with {| buckets := <[j2 := repeat (fp finger) 0 ++ repeat 0%Z (BUCKET_SIZE - 0)]>
                            (<[j1 := repeat (fp finger) 0 ++ repeat 0%Z (BUCKET_SIZE - 0)]> R);
                size := 0; pow := 5 |}
        by (rewrite (list_insert_id R j1 (repeat (fp finger) 0 ++ repeat 0%Z (BUCKET_SIZE - 0)) (HR j1 Hj1)), (list_insert_id R j2 (repeat (fp finger) 0 ++ repeat 0%Z (BUCKET_SIZE - 0)) (HR j2 Hj2));
            reflexivity).
      do 4 add_test_key_next ltac:(apply S1; unfold BUCKET_SIZE; lia).
      do 4 add_test_key_next ltac:(apply S2; unfold BUCKET_SIZE; lia).
      rewrite add_test_key_0. cbn [size Nat.eqb negb].
      do 8 add_test_key_next ltac:(apply S3; apply Hrng).
      rewrite add_test_key_0. cbn [size Nat.eqb].
      split; [intros _; split; assumption|reflexivity].
Qed.

End Extras3.

(** ** Instances of the further properties *)

Lemma trailing_zeros_debug_spec_witness :
  (0 < 96)%nat /\ (Z.of_nat 96 < two64)%Z /\ trailing_zeros_debug 96 = Some 5%nat.
Proof.
  assert (H1 : (0 < 96)%nat) by lia.
  assert (H2 : (Z.of_nat 96 < two64)%Z) by (vm_compute; reflexivity).
  split; [exact H1|]. split; [exact H2|].
  rewrite (proj1 (proj2 (trailing_zeros_debug_spec 96 H1 H2) ltac:(vm_compute; discriminate))).
  vm_compute. reflexivity.
Defined.

Lemma new_power_of_two_capacity_witness :
  (0 <= 100 < two64)%Z /\ (100 <= 4 * Z.of_nat (length (buckets (new 100))))%Z.
Proof.
  assert (Hm : (0 <= 100 < two64)%Z) by (unfold two64; lia).
  split; [exact Hm|].
  exact (proj2 (proj2 (proj2 (proj2 (new_power_of_two_capacity 100 Hm))))).
Defined.

Lemma zero_fingerprint_only_changes_size_witness :
  buckets (with_capacity 2) !! Z.to_nat 1 = Some bucket_new /\ In 0%Z bucket_new /\
  insert (with_capacity 2) 0 1 =
    Some (true, {| buckets := buckets (with_capacity 2); size := 1; pow := 1 |}).
Proof.
  assert (Hb : buckets (with_capacity 2) !! Z.to_nat 1 = Some bucket_new) by reflexivity.
  assert (Hin : In 0%Z bucket_new) by (left; reflexivity).
  split; [exact Hb|]. split; [exact Hin|].
  exact (proj1 (proj2 (proj2 (zero_fingerprint_only_changes_size (with_capacity 2) 1 _ Hb Hin)))).
Defined.

Lemma add_ok_fills_one_empty_slot_witness :
  @add sample_hasher (with_capacity 2) [1; 0]%Z true (fun _ => 0%nat) =
    Some (Ok, {| buckets := [[1; 0; 0; 0]; [0; 0; 0; 0]]%Z; size := 1; pow := 1 |}) /\
  size {| buckets := [[1; 0; 0; 0]; [0; 0; 0; 0]]%Z; size := 1; pow := 1 |} =
    S (size (with_capacity 2)).
Proof.
  assert (E : @add sample_hasher (with_capacity 2) [1; 0]%Z true (fun _ => 0%nat) =
    Some (Ok, {| buckets := [[1; 0; 0; 0]; [0; 0; 0; 0]]%Z; size := 1; pow := 1 |}))
    by (vm_compute; reflexivity).
  split; [exact E|]. exact (proj2 (add_ok_fills_one_empty_slot _ _ _ _ _ E)).
Defined.

Lemma add_on_own_full_buckets_witness :
  (forall n, (fun _ : nat => 0%nat) n < BUCKET_SIZE) /\
  @add sample_hasher {| buckets := [[5; 5; 5; 5]]%Z; size := 4; pow := 0 |} [5; 0]%Z true
    (fun _ => 0%nat) =
    Some (Err NotEnoughSpace, {| buckets := [[5; 5; 5; 5]]%Z; size := 4; pow := 0 |}).
Proof.
  assert (Hr : forall n, (fun _ : nat => 0%nat) n < BUCKET_SIZE)
    by (intros n; unfold BUCKET_SIZE; lia).
  split; [exact Hr|].
  apply (add_on_own_full_buckets (H := sample_hasher)
           {| buckets := [[5; 5; 5; 5]]%Z; size := 4; pow := 0 |} [5; 0]%Z true (fun _ => 0%nat)).
  - vm_compute. congruence.
  - exact Hr.
  - reflexivity.
  - reflexivity.
Defined.

Lemma run_keeps_fingerprints_in_candidate_buckets_witness :
  (Z.of_nat 2 < two64)%Z /\
  @run sample_hasher (with_capacity 2)
    [OpAdd [1; 0]%Z true (fun _ => 0%nat); OpAdd [2; 1]%Z false (fun _ => 0%nat);
     OpContains [1; 0]%Z] =
    Some {| buckets := [[1; 0; 0; 0]; [2; 0; 0; 0]]%Z; size := 2; pow := 1 |} /\
  @placed sample_hasher [[1; 0]; [2; 1]]%Z
    {| buckets := [[1; 0; 0; 0]; [2; 0; 0; 0]]%Z; size := 2; pow := 1 |}.
Proof.
  assert (Hn : (Z.of_nat 2 < two64)%Z) by (vm_compute; reflexivity).
  assert (Hrun : @run sample_hasher (with_capacity 2)
    [OpAdd [1; 0]%Z true (fun _ => 0%nat); OpAdd [2; 1]%Z false (fun _ => 0%nat);
     OpContains [1; 0]%Z] =
    Some {| buckets := [[1; 0; 0; 0]; [2; 0; 0; 0]]%Z; size := 2; pow := 1 |})
    by (vm_compute; reflexivity).
  split; [exact Hn|]. split; [exact Hrun|].
  exact (run_keeps_fingerprints_in_candidate_buckets _ _ _ Hn Hrun).
Defined.

Lemma add_fills_first_free_candidate_witness :
  ~ In 0%Z [7; 7; 7; 7]%Z /\ In 0%Z bucket_new /\
  @add sample_hasher {| buckets := [[7; 7; 7; 7]; [0; 0; 0; 0]]%Z; size := 4; pow := 1 |}
    [1; 0]%Z true (fun _ => 0%nat) =
    Some (Ok, {| buckets := [[7; 7; 7; 7]; [1; 0; 0; 0]]%Z; size := 5; pow := 1 |}).
Proof.
  assert (Hn1 : ~ In 0%Z [7; 7; 7; 7]%Z) by (intros Hin; simpl in Hin; lia).
  assert (Hin2 : In 0%Z bucket_new) by (left; reflexivity).
  split; [exact Hn1|]. split; [exact Hin2|].
  exact (proj2 (add_fills_first_free_candidate (H := sample_hasher)
                  {| buckets := [[7; 7; 7; 7]; [0; 0; 0; 0]]%Z; size := 4; pow := 1 |}
                  [1; 0]%Z true (fun _ => 0%nat) [7; 7; 7; 7]%Z bucket_new eq_refl eq_refl)
               Hn1 Hin2).
Defined.

Lemma test_add_passes_iff_witness :
  (forall k j, (fun _ _ : nat => 0%nat) k j < BUCKET_SIZE) /\
  @test_add sample_hasher (fun _ => true) (fun _ _ => 0%nat) = Some tt.
Proof.
  assert (Hr : forall k j, (fun _ _ : nat => 0%nat) k j < BUCKET_SIZE)
    by (intros k j; unfold BUCKET_SIZE; lia).
  split; [exact Hr|].
  apply (proj2 (test_add_passes_iff (H := sample_hasher) (fun _ => true) _ Hr)).
  split; vm_compute; congruence.
Defined.
